(** * uploadStream: bounded retry, error recording and consolidation

    A shallow embedding of
    [packages/server/lib/cloud/upload/uploadStream.ts].

    The upload performs one HTTP PUT through a retrying fetch.  Its
    [retryOn] callback both records the errors of failed attempts (as
    promises, because the richer message of an HTTP error is read
    asynchronously from the response body) and decides whether another
    attempt is made.  When the retrying fetch settles, the upload
    either resolves, rejects with the consolidated recorded errors, or
    rejects with the abort reason / the thrown error.

    JavaScript numbers are integers here ([Z], and [nat] for the
    attempt counter): statuses and attempt indices stay far inside the
    range in which JavaScript arithmetic is exact, and the arithmetic
    of the delay function rounds as binary64 does. *)

From Stdlib Require Import ZArith List String Ascii Bool Lia DecimalString.
Import ListNotations.

#[local] Set Warnings "-notation-for-abbreviation".

Local Open Scope string_scope.
Local Open Scope list_scope.
Local Open Scope Z_scope.

(** ** JavaScript values the upload touches *)

Module Js.

#[local] Set Warnings "-register-all".

(** What [response.json()] can produce.  A number is carried as the
    text ECMAScript prints for it, which is all the code does with
    it. *)
Inductive Json : Type :=
| JNull
| JBool (b : bool)
| JNum (repr : string)
| JStr (s : string)
| JArr (items : list Json)
| JObj (fields : list (string * Json)).

Definition hasOwn (key : string) (fields : list (string * Json)) : bool :=
  existsb (fun kv => String.eqb (fst kv) key) fields.

(** [ToString], as a template literal applies it; [None] stands for
    the TypeError ("Cannot convert object to primitive value").
    - an array is the comma-joined [ToString] of its elements, with
      [null] printed as the empty string;
    - a parsed object has no callable own property, so it prints as
      ["[object Object]"] through [Object.prototype.toString], unless
      an own ["toString"] key shadows that method: then no method
      yields a primitive and the conversion throws. *)
Fixpoint toString (j : Json) : option string :=
  match j with
  | JNull => Some "null"
  | JBool true => Some "true"
  | JBool false => Some "false"
  | JNum repr => Some repr
  | JStr s => Some s
  | JArr items =>
      (fix join (l : list Json) : option string :=
         match l with
         | [] => Some ""
         | x :: rest =>
             let element :=
               match x with
               | JNull => Some ""
               | _ => toString x
               end in
             match element, rest with
             | None, _ => None
             | Some s, [] => Some s
             | Some s, _ :: _ =>
                 match join rest with
                 | Some t => Some (s ++ "," ++ t)%string
                 | None => None
                 end
             end
         end) items
  | JObj fields =>
      if hasOwn "toString" fields then None else Some "[object Object]"
  end.

(** Decimal text of an integer number. *)
Definition numberToString (z : Z) : string :=
  NilZero.string_of_int (Z.to_int z).

End Js.

Import Js.

(** ** Errors *)

(** [class HttpError extends Error]: the three constructor parameters
    are public fields, and [message] is what [super] receives.  The
    field [statusText] is declared a string, but at run time it holds
    whatever value the constructor was given. *)
Record HttpError : Type := mkHttpError {
  http_status : Z;
  http_statusText : Json;
  http_url : string;
  http_message : string
}.

(** An error value: an [HttpError], or any other error object (a
    network failure of fetch, an abort error, a TypeError, the reason
    an abort controller was given), identified by name and message. *)
Inductive JsError : Type :=
| Err (name message : string)
| Http (h : HttpError).

(** The result of evaluating an expression that may throw. *)
Inductive Completion (A : Type) : Type :=
| Normal (a : A)
| Throws (e : JsError).
Arguments Normal {A} a.
Arguments Throws {A} e.

(** A promise, represented by the way it settles. *)
Inductive Promise (A : Type) : Type :=
| Fulfilled (a : A)
| RejectedWith (e : JsError).
Arguments Fulfilled {A} a.
Arguments RejectedWith {A} e.

(** [p.catch(handler)] for a handler that returns a plain value. *)
Definition promiseCatch {A : Type} (p : Promise A) (handler : JsError -> A)
  : Promise A :=
  match p with
  | Fulfilled a => Fulfilled a
  | RejectedWith e => Fulfilled (handler e)
  end.

(** [await p] inside a [try] block. *)
Definition await {A : Type} (p : Promise A) : Completion A :=
  match p with
  | Fulfilled a => Normal a
  | RejectedWith e => Throws e
  end.

(** [Promise.all]: the values in the order of the promises, or the
    first rejection. *)
Fixpoint promiseAll {A : Type} (ps : list (Promise A)) : Promise (list A) :=
  match ps with
  | [] => Fulfilled []
  | Fulfilled a :: rest =>
      match promiseAll rest with
      | Fulfilled l => Fulfilled (a :: l)
      | RejectedWith e => RejectedWith e
      end
  | RejectedWith e :: _ => RejectedWith e
  end.

Definition typeError : JsError :=
  Err "TypeError" "Cannot convert object to primitive value".

(** [new HttpError(status, statusText, url)], whose constructor calls
    [super(`${status}: ${statusText}`)]. *)
Definition newHttpError (status : Z) (statusText : Json) (url : string)
  : Completion HttpError :=
  match toString statusText with
  | Some text =>
      Normal (mkHttpError status statusText url
                (numberToString status ++ ": " ++ text)%string)
  | None => Throws typeError
  end.

(** ** Retry delays *)

(** JavaScript numbers are binary64 floating-point numbers.  An
    integer of magnitude below 2^53 is one of them; a larger integer
    result is rounded to the nearest of them, ties to the even
    significand.  (Magnitudes beyond the largest finite number are
    outside the model.) *)
Definition roundNumber (z : Z) : Z :=
  let a := Z.abs z in
  if a <? 2 ^ 53 then z
  else
    let unit := 2 ^ (Z.log2 a - 52) in
    let q := a / unit in
    let r := a mod unit in
    let q' :=
      if 2 * r <? unit then q
      else if unit <? 2 * r then q + 1
           else if Z.even q then q else q + 1 in
    Z.sgn z * (q' * unit).

(** [(n + 1) * 500], each operation rounding its result. *)
Definition geometricRetry (n : Z) : Z :=
  roundNumber (roundNumber (n + 1) * 500).

Definition identity (n : Z) : Z := n.

(** ** Responses and the retry policy *)

(** A fetch response: [json] is the promise [response.json()] returns,
    rejected when the body is not JSON or cannot be read.  (A body
    read that never settles is outside the model.) *)
Record Response : Type := mkResponse {
  status : Z;
  statusText : string;
  json : Promise Json
}.

Definition retryOnErrorCodes : list Z := [408; 429; 502; 503; 504].

(** [array.includes(x)] on numbers. *)
Definition includes (codes : list Z) (x : Z) : bool :=
  existsb (Z.eqb x) codes.

(** Truthiness of a number. *)
Definition truthy (n : Z) : bool := negb (n =? 0).

(** The promise pushed for an HTTP error response: its executor
    awaits the body, falls back to the status text when that fails, and
    resolves with the [HttpError], or with whatever was thrown on the
    way.  It never calls [reject]. *)
Definition errorPromise (destinationUrl : string) (response : Response)
  : Promise JsError :=
  let attempt_ :=
    match
      await (promiseCatch (json response)
                          (fun _ => JStr (statusText response)))
    with
    | Normal text =>
        match newHttpError (status response) text destinationUrl with
        | Normal h => Normal (Http h)
        | Throws e => Throws e
        end
    | Throws e => Throws e
    end in
  match attempt_ with
  | Normal e => Fulfilled e
  | Throws e => Fulfilled e
  end.

Definition isUnderRetryLimit (attempt retries : nat) : bool :=
  (attempt <? retries)%nat.

Definition isNetworkError (error : option JsError) : bool :=
  match error with
  | Some _ => true
  | None => false
  end.

Definition isRetryableHttpError (response : option Response) : bool :=
  match response with
  | Some r => truthy (status r) && includes retryOnErrorCodes (status r)
  | None => false
  end.

(** The errors [retryOn] pushes onto [errorPromises]: first the HTTP
    error of the response, then the network error. *)
Definition record (destinationUrl : string) (error : option JsError)
  (response : option Response) (errorPromises : list (Promise JsError))
  : list (Promise JsError) :=
  let errorPromises :=
    match response with
    | Some r =>
        if truthy (status r) && (400 <=? status r)
        then errorPromises ++ [errorPromise destinationUrl r]
        else errorPromises
    | None => errorPromises
    end in
  match error with
  | Some e => errorPromises ++ [Fulfilled e]
  | None => errorPromises
  end.

(** [retryOn(attempt, retries, error, response)]: the decision, and
    the list of error promises after the call. *)
Definition retryOn (destinationUrl : string) (attempt retries : nat)
  (error : option JsError) (response : option Response)
  (errorPromises : list (Promise JsError))
  : bool * list (Promise JsError) :=
  (isUnderRetryLimit attempt retries
     && (isNetworkError error || isRetryableHttpError response),
   record destinationUrl error response errorPromises).

(** ** The transport *)

(** How one call of [fetch] settles. *)
Inductive FetchResult : Type :=
| Responded (response : Response)
| Threw (error : JsError).

(** What the network does to the k-th transport call (k = 0, 1, ...)
    of an upload, when nothing aborts it. *)
Definition Network : Type := nat -> FetchResult.

(** [signal] of an [AbortController]: once aborted it stays aborted,
    and [reason] holds the value given to [abort], if any. *)
Record AbortSignal : Type := mkSignal {
  aborted : bool;
  reason : option JsError
}.

Definition freshSignal : AbortSignal := mkSignal false None.

(** What the activity monitor does while a transport call is in
    flight: nothing, or it aborts its controller (a stalled stream),
    recording a reason or none. *)
Inductive Activity : Type :=
| Flowing
| Stalled (abortReason : option JsError).

(** Modelled from the spec: the [StreamActivityMonitor], whose code is
    not part of the sources.  The upload uses it through its abort
    controller only; [during k] says what it does during the k-th
    transport call. *)
Record StreamActivityMonitor : Type := mkMonitor {
  during : nat -> Activity
}.

(** The error fetch rejects with when its signal is aborted. *)
Definition abortError : JsError :=
  Err "AbortError" "The user aborted a request.".

(** The mutable state of one upload: the recorded error promises, the
    controller's signal, and two logs (the settled transport calls and
    the retry delays waited, oldest first). *)
Record UploadState : Type := mkState {
  errorPromises : list (Promise JsError);
  signal : AbortSignal;
  calls : list FetchResult;
  waits : list Z
}.

Definition initialState : UploadState := mkState [] freshSignal [] [].

(** Modelled from the spec: one call of the transport ([cross-fetch]),
    a dependency that is not part of the sources.  It honours the
    cancellation signal: with a signal attached, a call made after the
    abort fails at once, and a call in flight when the monitor aborts
    fails with the abort error; otherwise the network decides.  Each
    call is logged. *)
Definition crossFetch (network : Network)
  (timeoutMonitor : option StreamActivityMonitor) (st : UploadState)
  : FetchResult * UploadState :=
  let k := List.length (calls st) in
  let '(result, signal') :=
    match timeoutMonitor with
    | None => (network k, signal st)
    | Some monitor =>
        if aborted (signal st) then (Threw abortError, signal st)
        else
          match during monitor k with
          | Flowing => (network k, signal st)
          | Stalled abortReason =>
              (Threw abortError, mkSignal true abortReason)
          end
    end in
  (result,
   mkState (errorPromises st) signal' (calls st ++ [result]) (waits st)).

(** [setTimeout(..., delay)] between two attempts. *)
Definition sleep (delay : Z) (st : UploadState) : UploadState :=
  mkState (errorPromises st) (signal st) (calls st) (waits st ++ [delay]).

(** ** The retrying fetch *)

Section FetchRetry.

(** The configuration given to [fetchCreator]. *)
Variable fetch : UploadState -> FetchResult * UploadState.
Variable retries : nat.
Variable retryDelay : Z -> Z.
Variable retryOn_ :
  nat -> nat -> option JsError -> option Response ->
  UploadState -> bool * UploadState.

(** The policy is asked with the response of a fulfilled fetch and no
    error, or with the error of a rejected fetch and no response. *)
Definition shouldRetry (attempt : nat) (result : FetchResult)
  (st : UploadState) : bool * UploadState :=
  match result with
  | Responded response => retryOn_ attempt retries None (Some response) st
  | Threw error => retryOn_ attempt retries (Some error) None st
  end.

(** Modelled from the spec: the loop of the [fetch-retry-ts] package
    ([fetchCreator]), a dependency that is not part of the sources.
    Attempts are sequential and numbered from 0; after each one the
    policy [retryOn] is asked with the attempt index, the configured
    [retries], and the error or the response; when it grants a retry
    the loop waits [retryDelay attempt] and starts the next attempt,
    otherwise it settles with that attempt's response or error.  The
    loop has no bound of its own (with a function [retryOn] the
    [retries] option is only passed along), hence the fuel: [None]
    means the fuel ran out. *)
Fixpoint extendedFetch (fuel attempt : nat) (st : UploadState)
  : option (FetchResult * UploadState) :=
  match fuel with
  | O => None
  | S fuel' =>
      let '(result, st1) := fetch st in
      let '(again, st2) := shouldRetry attempt result st1 in
      if again
      then extendedFetch fuel' (S attempt)
                         (sleep (retryDelay (Z.of_nat attempt)) st2)
      else Some (result, st2)
  end.

(** The same loop as a relation: [settles attempt st result st']
    when the loop entered at [attempt] in state [st] settles with
    [result], leaving state [st']. *)
Inductive settles : nat -> UploadState -> FetchResult -> UploadState -> Prop :=
| settles_stop : forall attempt st result st1 st2,
    fetch st = (result, st1) ->
    shouldRetry attempt result st1 = (false, st2) ->
    settles attempt st result st2
| settles_retry : forall attempt st result st1 st2 result' st',
    fetch st = (result, st1) ->
    shouldRetry attempt result st1 = (true, st2) ->
    settles (S attempt) (sleep (retryDelay (Z.of_nat attempt)) st2)
            result' st' ->
    settles attempt st result' st'.

End FetchRetry.

(** ** The upload *)

Record UploadStreamOptions : Type := mkOptions {
  retryDelay : option (Z -> Z);
  activityMonitor : option StreamActivityMonitor
}.

(** What the returned promise is rejected with: an error value, an
    [AggregateError] with its [errors] and message, or [undefined]
    (the element 0 of an empty array). *)
Inductive Rejection : Type :=
| Single (e : JsError)
| AggregateError (errors : list JsError) (message : string)
| Undefined.

Inductive Settlement : Type :=
| Resolved
| Rejected (r : Rejection).

(** A finished upload: how the promise settled, the final state, and
    whether [Promise.all(errorPromises)] was awaited. *)
Record Run : Type := mkRun {
  outcome : Settlement;
  final : UploadState;
  consolidated : bool
}.

(** [options?.retryDelay ?? identity] *)
Definition retryDelayOf (options : option UploadStreamOptions) : Z -> Z :=
  match options with
  | Some o =>
      match retryDelay o with
      | Some f => f
      | None => identity
      end
  | None => identity
  end.

(** [options?.activityMonitor ?? undefined] *)
Definition timeoutMonitorOf (options : option UploadStreamOptions)
  : option StreamActivityMonitor :=
  match options with
  | Some o => activityMonitor o
  | None => None
  end.

(** [retryOn] as a step on the upload state. *)
Definition retryOnState (destinationUrl : string) (attempt retries : nat)
  (error : option JsError) (response : option Response) (st : UploadState)
  : bool * UploadState :=
  let '(again, promises) :=
    retryOn destinationUrl attempt retries error response (errorPromises st) in
  (again, mkState promises (signal st) (calls st) (waits st)).

(** [retryableFetch], the result of [fetchCreator(crossFetch,
    { retries: 2, retryDelay, retryOn })]. *)
Definition retryableFetch (network : Network) (destinationUrl : string)
  (options : option UploadStreamOptions) (fuel : nat)
  : option (FetchResult * UploadState) :=
  extendedFetch (crossFetch network (timeoutMonitorOf options)) 2%nat
                (retryDelayOf options) (retryOnState destinationUrl)
                fuel 0%nat initialState.

(** [abortController?.signal.reason ?? e] *)
Definition reasonOr (timeoutMonitor : option StreamActivityMonitor)
  (st : UploadState) (e : JsError) : JsError :=
  match timeoutMonitor with
  | Some _ =>
      match reason (signal st) with
      | Some r => r
      | None => e
      end
  | None => e
  end.

(** [errors.length > 1 ? new AggregateError(errors, ...) : errors[0]] *)
Definition consolidate (errors : list JsError) : Rejection :=
  if (1 <? List.length errors)%nat
  then AggregateError errors
         (numberToString (Z.of_nat (List.length errors))
            ++ " errors encountered during upload")%string
  else
    match errors with
    | e :: _ => Single e
    | [] => Undefined
    end.

(** [uploadStream(fileStream, destinationUrl, fileSize, options)].
    The file stream and its size only fill the request (body and
    [content-length]); they do not influence how the call settles and
    are left out.  [network] is the environment, [fuel] bounds the
    number of attempts of the retry loop. *)
Definition uploadStream (fuel : nat) (network : Network)
  (destinationUrl : string) (options : option UploadStreamOptions)
  : option Run :=
  let timeoutMonitor := timeoutMonitorOf options in
  match retryableFetch network destinationUrl options fuel with
  | None => None
  | Some (Responded response, st) =>
      if 400 <=? status response then
        match await (promiseAll (errorPromises st)) with
        | Normal errors => Some (mkRun (Rejected (consolidate errors)) st true)
        | Throws e =>
            Some (mkRun (Rejected (Single (reasonOr timeoutMonitor st e)))
                        st true)
        end
      else Some (mkRun Resolved st false)
  | Some (Threw e, st) =>
      Some (mkRun (Rejected (Single (reasonOr timeoutMonitor st e))) st false)
  end.

(** The number of transport calls of a run. *)
Definition attempts (run : Run) : nat := List.length (calls (final run)).

(** ** Reading a run *)

(** The value handed to the [HttpError] constructor as its text: the
    parsed body, or the status text when the body does not parse.  The
    promise of an HTTP error response resolves with the [HttpError]
    built from it, or with the TypeError that constructor throws when
    the value has no string form. *)
Definition messageValue (response : Response) : Json :=
  match json response with
  | Fulfilled value => value
  | RejectedWith _ => JStr (statusText response)
  end.

Definition recordedError (destinationUrl : string) (response : Response)
  : JsError :=
  match toString (messageValue response) with
  | Some printed =>
      Http (mkHttpError (status response) (messageValue response)
              destinationUrl
              (numberToString (status response) ++ ": " ++ printed)%string)
  | None => typeError
  end.

(** The errors one settled transport call leaves on record. *)
Definition failureOf (destinationUrl : string) (result : FetchResult)
  : list JsError :=
  match result with
  | Responded r =>
      if 400 <=? status r then [recordedError destinationUrl r] else []
  | Threw e => [e]
  end.

(** The failure history of a sequence of calls, in attempt order. *)
Definition history (destinationUrl : string) (results : list FetchResult)
  : list JsError :=
  flat_map (failureOf destinationUrl) results.

(** Whether the policy, configured with [retries: 2], grants a retry
    after a call settled with [result]. *)
Definition granted (attempt : nat) (result : FetchResult) : bool :=
  isUnderRetryLimit attempt 2
  && match result with
     | Responded r => includes retryOnErrorCodes (status r)
     | Threw _ => true
     end.

(** The errors a rejection hands to the caller. *)
Definition errorsOf (r : Rejection) : list JsError :=
  match r with
  | Single e => [e]
  | AggregateError errors _ => errors
  | Undefined => []
  end.

(** An [HttpError] with the given status. *)
Definition carriesStatus (s : Z) (e : JsError) : Prop :=
  match e with
  | Http h => http_status h = s
  | Err _ _ => False
  end.

(** An error status outside the retryable set. *)
Definition terminalStatus (s : Z) : Prop :=
  400 <= s /\ ~ In s retryOnErrorCodes.

(** A network that answers the first calls as listed, and [otherwise]
    afterwards. *)
Definition scripted (results : list FetchResult) (otherwise : FetchResult)
  : Network :=
  fun k => nth k results otherwise.

(** An upload whose controller is never aborted: no activity monitor,
    or one that sees the stream flowing during every call. *)
Definition undisturbed (options : option UploadStreamOptions) : Prop :=
  match timeoutMonitorOf options with
  | Some monitor => forall k, during monitor k = Flowing
  | None => True
  end.

(** The message of the [AggregateError] for [n] errors. *)
Definition aggregateMessage (n : nat) : string :=
  (numberToString (Z.of_nat n) ++ " errors encountered during upload")%string.

(** A promise that settles by fulfilment. *)
Definition fulfilled {A : Type} (p : Promise A) : Prop :=
  exists a, p = Fulfilled a.

(** How the upload settles once the retrying fetch settled with
    [result] in state [st]: the two branches of the [try] block and
    the [catch] block. *)
Definition settlement (destinationUrl : string)
  (options : option UploadStreamOptions) (result : FetchResult)
  (st : UploadState) (errors : list JsError) : Settlement * bool :=
  match result with
  | Responded r =>
      if 400 <=? status r
      then (Rejected (consolidate errors), true)
      else (Resolved, false)
  | Threw e =>
      (Rejected (Single (reasonOr (timeoutMonitorOf options) st e)), false)
  end.

(** [Explained options url run pre result]: the run made the calls
    [pre] (each followed by a granted retry) and then the call that
    settled the retrying fetch with [result]; its record, its waits,
    its signal and its settlement are the ones these calls explain. *)
Record Explained (options : option UploadStreamOptions)
  (destinationUrl : string) (run : Run)
  (pre : list FetchResult) (result : FetchResult) : Prop := {
  ex_calls : calls (final run) = pre ++ [result];
  ex_recorded :
    errorPromises (final run)
    = map Fulfilled (history destinationUrl (pre ++ [result]));
  ex_waits :
    waits (final run)
    = map (fun i => retryDelayOf options (Z.of_nat i))
          (seq 0 (List.length pre));
  ex_stop : granted (List.length pre) result = false;
  ex_retried :
    forall i x, nth_error pre i = Some x -> granted i x = true;
  ex_reason :
    reason (signal (final run)) <> None ->
    aborted (signal (final run)) = true;
  ex_no_monitor :
    timeoutMonitorOf options = None -> signal (final run) = freshSignal;
  ex_aborted :
    aborted (signal (final run)) = true ->
    result = Threw abortError
    /\ timeoutMonitorOf options <> None
    /\ List.length pre = 2%nat;
  ex_settled :
    (outcome run, consolidated run)
    = settlement destinationUrl options result (final run)
                 (history destinationUrl (pre ++ [result]))
}.

(** A call after which the policy may grant a retry: it threw, or it
    received a response with a retryable status. *)
Definition retryableFailure (result : FetchResult) : Prop :=
  match result with
  | Responded r => In (status r) retryOnErrorCodes
  | Threw _ => True
  end.

(** The sum of the delays of a run. *)
Definition total (delays : list Z) : Z := fold_right Z.add 0 delays.

(** ** Escaping source text for a template literal

    [escapeString] of [scripts/binary/binary-integrity-check.js]. *)

(** [s.replaceAll(pattern, replacement)] for a non-empty search string
    and a replacement without substitution patterns: the occurrences
    are found from left to right and do not overlap.  [skip] counts the
    characters of the current match that are still to be passed
    over. *)
Fixpoint replaceFrom (pattern replacement : string) (skip : nat) (s : string)
  : string :=
  match s with
  | EmptyString => EmptyString
  | String c rest =>
      match skip with
      | S n => replaceFrom pattern replacement n rest
      | O =>
          if prefix pattern s
          then (replacement
                  ++ replaceFrom pattern replacement
                       (String.length pattern - 1) rest)%string
          else String c (replaceFrom pattern replacement 0 rest)
      end
  end.

Definition replaceAll (pattern replacement s : string) : string :=
  replaceFrom pattern replacement 0 s.

(** [string.replaceAll(`\``, `\\\``).replaceAll(`$`, `\\$`)]: the
    search strings are a backtick and a dollar, and each replacement
    is a backslash followed by the character searched for.  In the
    second replacement the dollar is the last character, so it stands
    for itself. *)
Definition escapeString (s : string) : string :=
  replaceAll "$" "\$" (replaceAll "`" "\`" s).

(** How often a character occurs in a string. *)
Fixpoint occurrences (c : ascii) (s : string) : nat :=
  match s with
  | EmptyString => 0%nat
  | String x rest =>
      ((if Ascii.eqb x c then 1 else 0) + occurrences c rest)%nat
  end.

(** ** A run, read off the inputs *)

(** The controller's signal after the first [k] transport calls, from
    what the monitor does during them: the first stall aborts it and
    records its reason, later ones change nothing. *)
Fixpoint signalAfter (monitor : StreamActivityMonitor) (k : nat)
  : AbortSignal :=
  match k with
  | O => freshSignal
  | S j =>
      let s := signalAfter monitor j in
      if aborted s then s
      else
        match during monitor j with
        | Flowing => s
        | Stalled abortReason => mkSignal true abortReason
        end
  end.

Definition signalOf (timeoutMonitor : option StreamActivityMonitor) (k : nat)
  : AbortSignal :=
  match timeoutMonitor with
  | Some monitor => signalAfter monitor k
  | None => freshSignal
  end.

(** What the k-th transport call returns: the abort error when the
    monitor stalled during it or before, the network's answer
    otherwise. *)
Definition observed (network : Network)
  (timeoutMonitor : option StreamActivityMonitor) (k : nat) : FetchResult :=
  if aborted (signalOf timeoutMonitor (S k)) then Threw abortError
  else network k.

(** The calls an upload is expected to make: a second one after a
    retryable failure of the first, a third one after a retryable
    failure of the second. *)
Definition expectedCalls (network : Network)
  (options : option UploadStreamOptions) : list FetchResult :=
  let answer := observed network (timeoutMonitorOf options) in
  if granted 0 (answer 0%nat)
  then if granted 1 (answer 1%nat)
       then [answer 0%nat; answer 1%nat; answer 2%nat]
       else [answer 0%nat; answer 1%nat]
  else [answer 0%nat].

(** ** Sample values *)

Definition uploadUrl : string := "https://storage.example/upload".

Definition notJson : Promise Json :=
  RejectedWith (Err "SyntaxError" "Unexpected token < in JSON").

Definition ok : Response := mkResponse 200 "OK" notJson.

Definition serviceUnavailable : Response :=
  mkResponse 503 "Service Unavailable" notJson.

Definition notFound : Response :=
  mkResponse 404 "Not Found" (Fulfilled (JStr "no such upload")).

(** A body that parses to an object with an own [toString] key. *)
Definition unprintable : Json := JObj [("toString", JNum "1")].

Definition unavailableUnprintable : Response :=
  mkResponse 503 "Service Unavailable" (Fulfilled unprintable).

Definition notFoundUnprintable : Response :=
  mkResponse 404 "Not Found" (Fulfilled unprintable).

Definition connectionReset : JsError :=
  Err "FetchError" "socket hang up".

Definition streamStalled : JsError :=
  Err "StreamStalledError" "stream stalled".

(** A monitor that sees the stream stall during the first call. *)
Definition stallsAtOnce : StreamActivityMonitor :=
  mkMonitor (fun k => match k with
                      | O => Stalled (Some streamStalled)
                      | S _ => Flowing
                      end).

(** ** Basic facts *)

Lemma roundNumber_exact z : Z.abs z < 2 ^ 53 -> roundNumber z = z.
Proof. intros H. unfold roundNumber. apply Z.ltb_lt in H. now rewrite H. Qed.

Lemma roundNumber_magnitude z :
  0 <= z -> 0 <= roundNumber z /\ z <= 2 * roundNumber z.
Proof.
  intros Hz. unfold roundNumber. rewrite (Z.abs_eq z) by assumption.
  destruct (Z.ltb_spec z (2 ^ 53)) as [Hlt|Hge]; [lia|].
  assert (Hpos : 0 < z) by lia.
  assert (Hlog : 53 <= Z.log2 z) by (apply Z.log2_le_pow2; lia).
  set (unit := 2 ^ (Z.log2 z - 52)).
  assert (Hu : 0 < unit) by (apply Z.pow_pos_nonneg; lia).
  assert (Hule : unit <= z).
  { transitivity (2 ^ Z.log2 z).
    - apply Z.pow_le_mono_r; lia.
    - apply Z.log2_spec; lia. }
  pose proof (Z.div_mod z unit ltac:(lia)) as Hdm.
  pose proof (Z.mod_pos_bound z unit Hu) as Hr.
  assert (Hq : 1 <= z / unit) by (apply Z.div_le_lower_bound; lia).
  rewrite (Z.sgn_pos z) by assumption.
  set (q := z / unit) in *. set (r := z mod unit) in *.
  destruct (2 * r <? unit); [nia|].
  destruct (unit <? 2 * r); [nia|].
  destruct (Z.even q); nia.
Qed.

Lemma roundNumber_opp z : roundNumber (- z) = - roundNumber z.
Proof.
  unfold roundNumber. rewrite Z.abs_opp, Z.sgn_opp.
  destruct (Z.abs z <? 2 ^ 53); lia.
Qed.

Lemma geometricRetry_small n :
  Z.abs ((n + 1) * 500) < 2 ^ 53 -> geometricRetry n = (n + 1) * 500.
Proof.
  intros H. unfold geometricRetry.
  rewrite (roundNumber_exact (n + 1)) by lia.
  now apply roundNumber_exact.
Qed.

Lemma geometricRetry_not_identity n : n <> geometricRetry n.
Proof.
  unfold geometricRetry.
  destruct (Z_le_gt_dec 0 (n + 1)) as [Hn|Hn].
  - destruct (roundNumber_magnitude (n + 1) Hn) as [H0 H1].
    destruct (roundNumber_magnitude (roundNumber (n + 1) * 500)
                ltac:(lia)) as [H2 H3].
    lia.
  - pose proof (roundNumber_opp (n + 1)) as Ho.
    destruct (roundNumber_magnitude (- (n + 1)) ltac:(lia)) as [H0 H1].
    rewrite Ho in H0, H1.
    pose proof (roundNumber_opp (roundNumber (n + 1) * 500)) as Ho2.
    destruct (roundNumber_magnitude (- (roundNumber (n + 1) * 500))
                ltac:(lia)) as [H2 H3].
    rewrite Ho2 in H2, H3. lia.
Qed.

Lemma truthy_and_error s : truthy s && (400 <=? s) = (400 <=? s).
Proof.
  unfold truthy. destruct (Z.eqb_spec s 0) as [->|]; simpl; auto.
Qed.

Lemma truthy_and_includes s :
  truthy s && includes retryOnErrorCodes s = includes retryOnErrorCodes s.
Proof.
  unfold truthy. destruct (Z.eqb_spec s 0) as [->|]; simpl; auto.
Qed.

Lemma includes_In codes s : includes codes s = true <-> In s codes.
Proof.
  unfold includes. rewrite existsb_exists. split.
  - intros (x & Hin & Heq). apply Z.eqb_eq in Heq. now subst.
  - intros Hin. exists s. split; [assumption | apply Z.eqb_refl].
Qed.

Lemma retryable_is_error s : includes retryOnErrorCodes s = true -> 400 <= s.
Proof.
  rewrite includes_In. unfold retryOnErrorCodes. simpl.
  intros [<-|[<-|[<-|[<-|[<-|[]]]]]]; lia.
Qed.

Lemma errorPromise_resolves url r :
  errorPromise url r = Fulfilled (recordedError url r).
Proof.
  unfold errorPromise, recordedError, messageValue, newHttpError.
  destruct (json r) as [value|e]; simpl.
  - destruct (toString value); reflexivity.
  - reflexivity.
Qed.

Lemma promiseAll_fulfilled {A : Type} (l : list A) :
  promiseAll (map Fulfilled l) = Fulfilled l.
Proof.
  induction l as [|a l IH]; simpl; [reflexivity | now rewrite IH].
Qed.

Lemma record_response url r promises :
  record url None (Some r) promises
  = promises ++ map Fulfilled (failureOf url (Responded r)).
Proof.
  unfold record, failureOf. rewrite truthy_and_error.
  destruct (400 <=? status r); simpl.
  - now rewrite errorPromise_resolves.
  - now rewrite app_nil_r.
Qed.

Lemma record_error url e promises :
  record url (Some e) None promises
  = promises ++ map Fulfilled (failureOf url (Threw e)).
Proof. reflexivity. Qed.

Lemma granted_limit attempt result :
  granted attempt result = true -> (attempt < 2)%nat.
Proof.
  unfold granted, isUnderRetryLimit. intros H.
  apply andb_true_iff in H as [H _]. now apply Nat.ltb_lt in H.
Qed.

Lemma granted_fails url attempt result :
  granted attempt result = true ->
  List.length (failureOf url result) = 1%nat.
Proof.
  unfold granted. intros H. apply andb_true_iff in H as [_ H].
  destruct result as [r|e]; simpl; [|reflexivity].
  apply retryable_is_error in H. apply Z.leb_le in H. now rewrite H.
Qed.

(** ** The retry loop of one upload *)

Section Loop.

Variable network : Network.
Variable destinationUrl : string.
Variable options : option UploadStreamOptions.

Local Notation monitor := (timeoutMonitorOf options).
Local Notation delay := (retryDelayOf options).
Local Notation fetch := (crossFetch network monitor).
Local Notation policy := (retryOnState destinationUrl).
Local Notation loop := (extendedFetch fetch 2 delay policy).
Local Notation run_from := (settles fetch 2 delay policy).

Lemma policy_spec attempt result st :
  shouldRetry 2 policy attempt result st
  = (granted attempt result,
     mkState (errorPromises st
                ++ map Fulfilled (failureOf destinationUrl result))
             (signal st) (calls st) (waits st)).
Proof.
  destruct result as [r|e]; unfold shouldRetry, retryOnState, retryOn, granted.
  - rewrite record_response. simpl isNetworkError. simpl isRetryableHttpError.
    now rewrite truthy_and_includes.
  - rewrite record_error. simpl. reflexivity.
Qed.

Lemma fetch_spec st result st1 :
  fetch st = (result, st1) ->
  errorPromises st1 = errorPromises st
  /\ calls st1 = calls st ++ [result]
  /\ waits st1 = waits st.
Proof.
  unfold crossFetch.
  destruct monitor as [m|].
  - destruct (aborted (signal st)).
    + intros [= <- <-]. auto.
    + destruct (during m _); intros [= <- <-]; auto.
  - intros [= <- <-]. auto.
Qed.

(** The loop function computes the relation. *)
Lemma loop_settles fuel : forall attempt st result st',
  loop fuel attempt st = Some (result, st') ->
  run_from attempt st result st'.
Proof.
  induction fuel as [|fuel IH]; intros attempt st result st' H; [discriminate|].
  simpl in H.
  destruct (fetch st) as [r st1] eqn:Hfetch.
  destruct (shouldRetry 2 policy attempt r st1) as [again st2] eqn:Hask.
  destruct again.
  - eapply settles_retry; eauto.
  - injection H as <- <-. eapply settles_stop; eauto.
Qed.

(** Three attempts of fuel are always enough: the policy stops the
    loop at attempt 2 at the latest. *)
Lemma loop_returns fuel : forall attempt st,
  (3 <= fuel + attempt)%nat -> (1 <= fuel)%nat ->
  exists result st', loop fuel attempt st = Some (result, st').
Proof.
  induction fuel as [|fuel IH]; intros attempt st Hsum Hpos; [lia|].
  simpl.
  destruct (fetch st) as [r st1] eqn:Hfetch.
  rewrite policy_spec.
  destruct (granted attempt r) eqn:Hg.
  - apply granted_limit in Hg. apply IH; lia.
  - eauto.
Qed.

(** What the loop leaves behind: the calls made, the errors recorded
    for them in order, the delays waited, and why it stopped. *)
Lemma run_from_trace attempt st result st' :
  run_from attempt st result st' ->
  exists pre,
    calls st' = calls st ++ pre ++ [result]
    /\ errorPromises st'
       = errorPromises st
           ++ map Fulfilled (history destinationUrl (pre ++ [result]))
    /\ waits st'
       = waits st
           ++ map (fun i => delay (Z.of_nat i)) (seq attempt (List.length pre))
    /\ granted (attempt + List.length pre) result = false
    /\ (forall i x, nth_error pre i = Some x ->
                    granted (attempt + i) x = true).
Proof.
  induction 1 as [attempt st result st1 st2 Hfetch Hask
                 |attempt st result st1 st2 result' st' Hfetch Hask _ IH].
  - rewrite policy_spec in Hask. injection Hask as Hg <-.
    apply fetch_spec in Hfetch as (Hp & Hc & Hw).
    exists []. simpl. rewrite Hp, Hc, Hw, app_nil_r, app_nil_r, Nat.add_0_r.
    repeat split; auto.
    intros [|i] x; discriminate.
  - rewrite policy_spec in Hask. injection Hask as Hg <-.
    apply fetch_spec in Hfetch as (Hp & Hc & Hw).
    destruct IH as (pre & Hcalls & Hproms & Hwaits & Hstop & Hretried).
    simpl in Hcalls, Hproms, Hwaits.
    exists (result :: pre). simpl.
    rewrite Hcalls, Hproms, Hwaits, Hp, Hc, Hw.
    unfold history. simpl. rewrite map_app.
    rewrite <- !app_assoc. simpl.
    replace (attempt + S (List.length pre))%nat
      with (S attempt + List.length pre)%nat by lia.
    repeat split; auto.
    intros [|i] x Hx; simpl in Hx.
    + injection Hx as <-. now rewrite Nat.add_0_r.
    + replace (attempt + S i)%nat with (S attempt + i)%nat by lia. auto.
Qed.

(** The controller's signal along the loop.  A signal is coherent
    when it carries a reason only if aborted, and is untouched when no
    monitor was supplied. *)
Lemma run_from_signal attempt st result st' :
  run_from attempt st result st' ->
  (attempt <= 2)%nat ->
  (reason (signal st) <> None -> aborted (signal st) = true) ->
  (monitor = None -> signal st = freshSignal) ->
  (reason (signal st') <> None -> aborted (signal st') = true)
  /\ (monitor = None -> signal st' = freshSignal)
  /\ (aborted (signal st') = true ->
      result = Threw abortError
      /\ monitor <> None
      /\ List.length (calls st') = (List.length (calls st) + (3 - attempt))%nat).
Proof.
  induction 1 as [attempt st result st1 st2 Hfetch Hask
                 |attempt st result st1 st2 result' st' Hfetch Hask _ IH];
    intros Hle Hcoh Hnone.
  - rewrite policy_spec in Hask. injection Hask as Hg <-. simpl.
    pose proof (fetch_spec _ _ _ Hfetch) as (_ & Hc & _).
    unfold crossFetch in Hfetch.
    destruct monitor as [m|] eqn:Hm.
    + destruct (aborted (signal st)) eqn:Hab.
      * injection Hfetch as <- <-. simpl. rewrite Hab.
        repeat split; auto; try discriminate.
        unfold granted, isUnderRetryLimit in Hg. rewrite andb_true_r in Hg.
        apply Nat.ltb_ge in Hg.
        assert (attempt = 2)%nat as -> by lia.
        rewrite length_app. simpl. lia.
      * destruct (during m _) eqn:Hd; injection Hfetch as <- <-; simpl.
        -- rewrite Hab. repeat split; auto; discriminate.
        -- repeat split; auto; try discriminate.
           unfold granted, isUnderRetryLimit in Hg. rewrite andb_true_r in Hg.
           apply Nat.ltb_ge in Hg.
           assert (attempt = 2)%nat as -> by lia.
           rewrite length_app. simpl. lia.
    + injection Hfetch as <- <-. simpl. rewrite (Hnone eq_refl). simpl.
      repeat split; auto; try discriminate.
  - rewrite policy_spec in Hask. injection Hask as Hg <-.
    apply granted_limit in Hg.
    pose proof (fetch_spec _ _ _ Hfetch) as (_ & Hc & _).
    assert (Hsig : (reason (signal st1) <> None -> aborted (signal st1) = true)
                   /\ (monitor = None -> signal st1 = freshSignal)).
    { unfold crossFetch in Hfetch.
      destruct monitor as [m|] eqn:Hm.
      - destruct (aborted (signal st)) eqn:Hab.
        + injection Hfetch as _ <-. simpl. split; [auto | discriminate].
        + destruct (during m _); injection Hfetch as _ <-; simpl;
            (split; [intros Hr; rewrite ?Hab; auto | discriminate]).
      - injection Hfetch as _ <-. simpl. auto. }
    destruct Hsig as [Hcoh1 Hnone1].
    specialize (IH ltac:(lia)). cbn [sleep signal calls] in IH.
    destruct (IH Hcoh1 Hnone1) as (H1 & H2 & H3).
    repeat split; auto.
    + apply H3; assumption.
    + apply H3; assumption.
    + destruct (H3 H) as (_ & _ & Hlen). rewrite Hlen.
      cbn [sleep calls]. rewrite Hc, length_app. cbn [List.length]. lia.
Qed.

End Loop.

(** ** Every upload settles, and how *)

Lemma upload_explained k network destinationUrl options :
  exists run pre result,
    uploadStream (3 + k) network destinationUrl options = Some run
    /\ Explained options destinationUrl run pre result.
Proof.
  unfold uploadStream, retryableFetch.
  destruct (loop_returns network destinationUrl options (3 + k) 0 initialState)
    as (result & st & Hloop); [lia | lia |].
  rewrite Hloop.
  pose proof (loop_settles _ _ _ _ _ _ _ _ Hloop) as Hrun.
  destruct (run_from_trace _ _ _ _ _ _ _ Hrun)
    as (pre & Hcalls & Hproms & Hwaits & Hstop & Hretried).
  destruct (run_from_signal _ _ _ _ _ _ _ Hrun)
    as (Hreason & Hnone & Habort); simpl; auto; try congruence.
  simpl in Hcalls, Hproms, Hwaits, Hstop, Hretried, Habort.
  assert (Hlen : aborted (signal st) = true ->
                 result = Threw abortError
                 /\ timeoutMonitorOf options <> None
                 /\ List.length pre = 2%nat).
  { intros H. destruct (Habort H) as (H1 & H2 & H3).
    repeat split; auto.
    rewrite Hcalls, length_app in H3. simpl in H3. lia. }
  destruct result as [r|e].
  - destruct (400 <=? status r) eqn:Hstatus.
    + rewrite Hproms, promiseAll_fulfilled. simpl.
      eexists; exists pre; exists (Responded r). split; [reflexivity|].
      constructor; simpl; auto; unfold settlement; now rewrite ?Hstatus.
    + eexists; exists pre; exists (Responded r). split; [reflexivity|].
      constructor; simpl; auto; unfold settlement; now rewrite ?Hstatus.
  - eexists; exists pre; exists (Threw e). split; [reflexivity|].
    constructor; simpl; auto.
Qed.

Lemma explained_attempts options url run pre result :
  Explained options url run pre result ->
  attempts run = S (List.length pre) /\ (attempts run <= 3)%nat.
Proof.
  intros E. unfold attempts. rewrite (ex_calls _ _ _ _ _ E), length_app.
  simpl. split; [lia|].
  destruct pre as [|x pre] using rev_ind; [simpl; lia|].
  assert (H : granted (List.length pre) x = true).
  { apply (ex_retried _ _ _ _ _ E). rewrite nth_error_app2 by lia.
    now rewrite Nat.sub_diag. }
  apply granted_limit in H. rewrite length_app. simpl. lia.
Qed.

(** ** The retry policy *)

Lemma retry_granted_iff retries url attempt error response promises :
  fst (retryOn url attempt retries error response promises) = true
  <-> (attempt < retries)%nat
      /\ (error <> None
          \/ exists r, response = Some r /\ In (status r) retryOnErrorCodes).
Proof.
  unfold retryOn, isUnderRetryLimit. simpl fst.
  rewrite andb_true_iff, orb_true_iff, Nat.ltb_lt.
  split; intros [Hlimit Hwhy]; (split; [exact Hlimit|]).
  - destruct Hwhy as [Herr|Hresp].
    + left. destruct error; [discriminate | discriminate Herr].
    + right. destruct response as [r|]; [|discriminate Hresp].
      simpl in Hresp. rewrite truthy_and_includes in Hresp.
      exists r. split; [reflexivity | now apply includes_In].
  - destruct Hwhy as [Herr|(r & -> & Hin)].
    + left. destruct error; [reflexivity | congruence].
    + right. simpl. rewrite truthy_and_includes. now apply includes_In.
Qed.

(** C1. With the retry limit 2 the retry decision is true exactly
    when the attempt index is below 2 and a network error is present
    or the response status is one of 408, 429, 502, 503, 504.  In
    particular another status of 400 or more gives no retry although
    attempts remain, and a 503 at attempt index 2 gives no retry. *)
Theorem retryOn_decision :
  forall url (attempt : nat) (error : option JsError)
         (response : option Response) promises,
    (fst (retryOn url attempt 2 error response promises) = true
     <-> (attempt < 2)%nat
         /\ (error <> None
             \/ exists r, response = Some r
                          /\ In (status r) [408; 429; 502; 503; 504]))
    /\ (forall r, response = Some r -> error = None ->
                  400 <= status r ->
                  ~ In (status r) [408; 429; 502; 503; 504] ->
                  fst (retryOn url attempt 2 error response promises) = false)
    /\ (forall r, status r = 503 ->
                  fst (retryOn url 2 2 None (Some r) promises) = false).
Proof.
  intros url attempt error response promises.
  split; [apply retry_granted_iff|]. split.
  - intros r -> -> _ Hout.
    apply not_true_is_false. intros H.
    apply retry_granted_iff in H as [_ [H|(r' & [= <-] & Hin)]];
      [now apply H | now apply Hout].
  - intros r _. apply not_true_is_false. intros H.
    apply retry_granted_iff in H as [Hlt _]. lia.
Qed.

Lemma retryOn_decision_witness :
  fst (retryOn uploadUrl 0 2 None (Some serviceUnavailable) []) = true
  /\ fst (retryOn uploadUrl 1 2 (Some connectionReset) None []) = true
  /\ fst (retryOn uploadUrl 0 2 None (Some notFound) []) = false
  /\ fst (retryOn uploadUrl 2 2 None (Some serviceUnavailable) []) = false.
Proof.
  split; [|split; [|split]].
  - destruct (retryOn_decision uploadUrl 0 None (Some serviceUnavailable) [])
      as (Hiff & _ & _).
    apply Hiff. split; [lia|]. right. exists serviceUnavailable.
    split; [reflexivity | simpl; tauto].
  - destruct (retryOn_decision uploadUrl 1 (Some connectionReset) None [])
      as (Hiff & _ & _).
    apply Hiff. split; [lia|]. left. discriminate.
  - destruct (retryOn_decision uploadUrl 0 None (Some notFound) [])
      as (_ & Hterminal & _).
    apply (Hterminal notFound eq_refl eq_refl).
    + simpl. lia.
    + simpl. intros [H|[H|[H|[H|[H|[]]]]]]; discriminate.
  - destruct (retryOn_decision uploadUrl 0 None None [])
      as (_ & _ & Hlimit).
    apply (Hlimit serviceUnavailable eq_refl).
Defined.

(** ** Delays *)

(** C8 (as the code has it).  For every natural number n with
    (n + 1) * 500 below 2^53, where the arithmetic of JavaScript
    numbers is exact, the production delay is (n + 1) * 500
    milliseconds; for the attempt indices 0, 1, 2 it is 500, 1000 and
    1500. *)
Theorem geometricRetry_exact_below_2_53 :
  forall n : nat,
    (Z.of_nat n + 1) * 500 < 2 ^ 53 ->
    geometricRetry (Z.of_nat n) = (Z.of_nat n + 1) * 500
    /\ map geometricRetry [0; 1; 2] = [500; 1000; 1500].
Proof.
  intros n H. split; [|reflexivity].
  apply geometricRetry_small. lia.
Qed.

Lemma geometricRetry_exact_below_2_53_witness :
  geometricRetry (Z.of_nat 2) = 1500.
Proof.
  apply (geometricRetry_exact_below_2_53 2). simpl. lia.
Defined.

(** C8, refuted as stated: for n = 72057594037928 the product
    (n + 1) * 500 = 36028797018964500 lies halfway between two
    neighbouring numbers and is rounded to 36028797018964496. *)
Lemma geometricRetry_rounds :
  exists n : nat,
    Z.of_nat n = 72057594037928
    /\ geometricRetry (Z.of_nat n) = 36028797018964496
    /\ geometricRetry (Z.of_nat n) <> (Z.of_nat n + 1) * 500.
Proof.
  exists (Z.to_nat 72057594037928).
  rewrite Z2Nat.id by lia.
  split; [reflexivity|]. split; [reflexivity | discriminate].
Qed.

(** C9. When the options (or their [retryDelay]) are omitted, the
    delay function of the upload is the identity on the attempt index,
    which is not the geometric function: an upload then waits 0, 1, ...
    before its retries.  The geometric function is used only when the
    caller passes it. *)
Theorem default_retryDelay_is_identity :
  forall (mon : option StreamActivityMonitor) k network url,
    retryDelayOf None = identity
    /\ retryDelayOf (Some (mkOptions None mon)) = identity
    /\ (forall n, identity n = n)
    /\ (forall n, identity n <> geometricRetry n)
    /\ retryDelayOf (Some (mkOptions (Some geometricRetry) mon))
       = geometricRetry
    /\ (exists run,
          uploadStream (3 + k) network url
                       (Some (mkOptions None mon)) = Some run
          /\ waits (final run)
             = map Z.of_nat (seq 0 (attempts run - 1)))
    /\ (exists run,
          uploadStream (3 + k) network url
                       (Some (mkOptions (Some geometricRetry) mon))
          = Some run
          /\ waits (final run)
             = map (fun i => (Z.of_nat i + 1) * 500)
                   (seq 0 (attempts run - 1))).
Proof.
  intros mon k network url.
  repeat split; try reflexivity.
  - intros n. unfold identity. apply geometricRetry_not_identity.
  - destruct (upload_explained k network url
                (Some (mkOptions None mon)))
      as (run & pre & result & Hrun & E).
    exists run. split; [exact Hrun|].
    unfold attempts. rewrite (ex_waits _ _ _ _ _ E), (ex_calls _ _ _ _ _ E).
    rewrite length_app. simpl.
    replace (List.length pre + 1 - 1)%nat with (List.length pre) by lia.
    reflexivity.
  - destruct (upload_explained k network url
                (Some (mkOptions (Some geometricRetry) mon)))
      as (run & pre & result & Hrun & E).
    exists run. split; [exact Hrun|].
    destruct (explained_attempts _ _ _ _ _ E) as [Hn Hmax].
    rewrite (ex_waits _ _ _ _ _ E), Hn.
    replace (S (List.length pre) - 1)%nat with (List.length pre) by lia.
    destruct pre as [|x [|y [|z pre]]]; simpl in Hn; try reflexivity; lia.
Qed.

(** ** Enrichment *)

Lemma record_fulfilled url error response promises :
  Forall fulfilled promises ->
  Forall fulfilled (record url error response promises).
Proof.
  intros H. unfold record.
  assert (H1 : Forall fulfilled
                 match response with
                 | Some r =>
                     if truthy (status r) && (400 <=? status r)
                     then promises ++ [errorPromise url r]
                     else promises
                 | None => promises
                 end).
  { destruct response as [r|]; [|exact H].
    destruct (truthy (status r) && (400 <=? status r)); [|exact H].
    apply Forall_app. split; [exact H|].
    constructor; [|constructor].
    exists (recordedError url r). apply errorPromise_resolves. }
  destruct error as [e|]; [|exact H1].
  apply Forall_app. split; [exact H1|].
  constructor; [|constructor]. now exists e.
Qed.

(** C10. Every error promise recorded for a failed attempt is
    fulfilled, never rejected.  For an HTTP error response whose body
    parses as JSON, the parsed value is the message text of the
    [HttpError]; when the body does not parse, the status text of the
    response is; and when building the error throws, the thrown value
    is what the promise resolves with.  The promise of a network error
    is fulfilled with that error.  Hence awaiting all recorded promises
    of an upload cannot throw: it yields the recorded errors. *)
Theorem error_promises_resolve :
  forall url (r : Response),
    (exists e, errorPromise url r = Fulfilled e)
    /\ (forall value text,
          json r = Fulfilled value -> toString value = Some text ->
          errorPromise url r
          = Fulfilled
              (Http (mkHttpError (status r) value url
                       (numberToString (status r) ++ ": " ++ text)%string)))
    /\ (forall why,
          json r = RejectedWith why ->
          errorPromise url r
          = Fulfilled
              (Http (mkHttpError (status r) (JStr (statusText r)) url
                       (numberToString (status r) ++ ": " ++ statusText r)
                       %string)))
    /\ (forall value thrown,
          json r = Fulfilled value ->
          newHttpError (status r) value url = Throws thrown ->
          errorPromise url r = Fulfilled thrown)
    /\ (forall error response promises,
          Forall fulfilled promises ->
          Forall fulfilled (record url error response promises))
    /\ (forall k network options,
          exists run errors,
            uploadStream (3 + k) network url options = Some run
            /\ Forall fulfilled (errorPromises (final run))
            /\ promiseAll (errorPromises (final run)) = Fulfilled errors
            /\ errors = history url (calls (final run))).
Proof.
  intros url r. repeat split.
  - exists (recordedError url r). apply errorPromise_resolves.
  - intros value text Hjson Htext.
    unfold errorPromise, newHttpError. rewrite Hjson. simpl.
    now rewrite Htext.
  - intros why Hjson.
    unfold errorPromise, newHttpError. rewrite Hjson. reflexivity.
  - intros value thrown Hjson Hthrow.
    unfold errorPromise. rewrite Hjson. simpl. now rewrite Hthrow.
  - intros error response promises. apply record_fulfilled.
  - intros k network options.
    destruct (upload_explained k network url options)
      as (run & pre & result & Hrun & E).
    exists run, (history url (pre ++ [result])).
    split; [exact Hrun|].
    rewrite (ex_recorded _ _ _ _ _ E), (ex_calls _ _ _ _ _ E).
    repeat split.
    + apply Forall_forall. intros p Hp.
      apply in_map_iff in Hp as (e & <- & _). now exists e.
    + apply promiseAll_fulfilled.
Qed.

Lemma error_promises_resolve_witness :
  errorPromise uploadUrl notFound
  = Fulfilled (Http (mkHttpError 404 (JStr "no such upload") uploadUrl
                       "404: no such upload"))
  /\ errorPromise uploadUrl serviceUnavailable
     = Fulfilled (Http (mkHttpError 503 (JStr "Service Unavailable") uploadUrl
                          "503: Service Unavailable"))
  /\ errorPromise uploadUrl notFoundUnprintable = Fulfilled typeError.
Proof.
  split; [|split].
  - destruct (error_promises_resolve uploadUrl notFound)
      as (_ & Hparsed & _).
    apply (Hparsed (JStr "no such upload") "no such upload");
      reflexivity.
  - destruct (error_promises_resolve uploadUrl serviceUnavailable)
      as (_ & _ & Hfallback & _).
    apply (Hfallback (Err "SyntaxError" "Unexpected token < in JSON")).
    reflexivity.
  - destruct (error_promises_resolve uploadUrl notFoundUnprintable)
      as (_ & _ & _ & Hthrown & _).
    apply (Hthrown unprintable typeError); reflexivity.
Defined.


(** ** Consolidation *)

Lemma consolidate_many errors :
  (1 < List.length errors)%nat ->
  consolidate errors
  = AggregateError errors (aggregateMessage (List.length errors)).
Proof.
  intros H. unfold consolidate, aggregateMessage.
  apply Nat.ltb_lt in H. now rewrite H.
Qed.

Lemma history_app url xs ys :
  history url (xs ++ ys) = history url xs ++ history url ys.
Proof. unfold history. apply flat_map_app. Qed.

Lemma history_retried url pre :
  (forall i x, nth_error pre i = Some x -> granted i x = true) ->
  List.length (history url pre) = List.length pre.
Proof.
  intros H.
  assert (Hall : Forall (fun x => List.length (failureOf url x) = 1%nat) pre).
  { apply Forall_forall. intros x Hx.
    apply In_nth_error in Hx as [i Hi].
    eapply granted_fails, H, Hi. }
  clear H. induction Hall as [|x l Hx _ IH]; [reflexivity|].
  change (history url (x :: l)) with (failureOf url x ++ history url l).
  rewrite length_app, Hx, IH. reflexivity.
Qed.

Lemma explained_last options url run pre result pre' result' :
  Explained options url run pre result ->
  calls (final run) = pre' ++ [result'] ->
  pre' = pre /\ result' = result.
Proof.
  intros E H. rewrite (ex_calls _ _ _ _ _ E) in H.
  apply app_inj_tail in H as [-> ->]. auto.
Qed.

(** C3, refuted as stated: the monitor aborts with a reason during
    the first call.  The policy grants a retry for the abort error,
    and two more attempts are made, after the retry delays, before the
    upload rejects with the reason. *)
Lemma abort_is_retried :
  exists run,
    uploadStream 3 (fun _ => Responded ok) uploadUrl
                 (Some (mkOptions (Some geometricRetry) (Some stallsAtOnce)))
    = Some run
    /\ during stallsAtOnce 0 = Stalled (Some streamStalled)
    /\ fst (retryOn uploadUrl 0 2 (Some abortError) None []) = true
    /\ outcome run = Rejected (Single streamStalled)
    /\ calls (final run)
       = [Threw abortError; Threw abortError; Threw abortError]
    /\ waits (final run) = [500; 1000]
    /\ attempts run <> 1%nat.
Proof.
  eexists. split; [reflexivity|].
  repeat split; discriminate.
Qed.

(** C5.  The code at a run that exhausts the retry budget with a
    network-level error: two 503 responses and then a network failure.
    [retryOn] recorded an error for each of the three attempts, but the
    upload rejects with the last failure alone; the recorded errors are
    neither awaited nor handed to the caller, where the claim asks for
    the full ordered history after awaiting every enrichment. *)
Lemma network_failure_drops_history :
  exists run rejection,
    uploadStream 3
      (scripted [Responded serviceUnavailable; Responded serviceUnavailable]
                (Threw connectionReset))
      uploadUrl None
    = Some run
    /\ attempts run = 3%nat
    /\ outcome run = Rejected rejection
    /\ rejection = Single connectionReset
    /\ consolidated run = false
    /\ List.length (history uploadUrl (calls (final run))) = 3%nat
    /\ errorsOf rejection <> history uploadUrl (calls (final run)).
Proof.
  eexists. eexists. split; [reflexivity|].
  repeat split; discriminate.
Qed.

(** ** Scenarios without cancellation *)

Section Undisturbed.

Variable network : Network.
Variable destinationUrl : string.
Variable options : option UploadStreamOptions.
Hypothesis quiet : undisturbed options.

Local Notation monitor := (timeoutMonitorOf options).
Local Notation delay := (retryDelayOf options).
Local Notation fetch := (crossFetch network monitor).
Local Notation policy := (retryOnState destinationUrl).
Local Notation loop := (extendedFetch fetch 2 delay policy).

Lemma fetch_undisturbed promises made waited :
  fetch (mkState promises freshSignal made waited)
  = (network (List.length made),
     mkState promises freshSignal (made ++ [network (List.length made)])
             waited).
Proof.
  unfold crossFetch. simpl. unfold undisturbed in quiet.
  destruct monitor as [m|]; [|reflexivity].
  now rewrite quiet.
Qed.

Lemma loop_retry fuel attempt promises made waited :
  granted attempt (network (List.length made)) = true ->
  loop (S fuel) attempt (mkState promises freshSignal made waited)
  = loop fuel (S attempt)
      (mkState
         (promises
            ++ map Fulfilled
                 (failureOf destinationUrl (network (List.length made))))
         freshSignal
         (made ++ [network (List.length made)])
         (waited ++ [delay (Z.of_nat attempt)])).
Proof.
  intros Hg. cbn [extendedFetch].
  rewrite fetch_undisturbed, policy_spec, Hg. reflexivity.
Qed.

Lemma loop_stop fuel attempt promises made waited :
  granted attempt (network (List.length made)) = false ->
  loop (S fuel) attempt (mkState promises freshSignal made waited)
  = Some (network (List.length made),
          mkState
            (promises
               ++ map Fulfilled
                    (failureOf destinationUrl (network (List.length made))))
            freshSignal
            (made ++ [network (List.length made)])
            waited).
Proof.
  intros Hg. cbn [extendedFetch].
  rewrite fetch_undisturbed, policy_spec, Hg. reflexivity.
Qed.

End Undisturbed.

Lemma granted_retryable attempt r :
  (attempt < 2)%nat -> In (status r) retryOnErrorCodes ->
  granted attempt (Responded r) = true.
Proof.
  intros Hlt Hin. unfold granted, isUnderRetryLimit.
  apply Nat.ltb_lt in Hlt. rewrite Hlt. now apply includes_In.
Qed.

Lemma granted_terminal attempt r :
  ~ In (status r) retryOnErrorCodes ->
  granted attempt (Responded r) = false.
Proof.
  intros Hout. unfold granted.
  destruct (includes retryOnErrorCodes (status r)) eqn:H.
  - apply includes_In in H. contradiction.
  - apply andb_false_r.
Qed.

Lemma failureOf_error url r :
  400 <= status r -> failureOf url (Responded r) = [recordedError url r].
Proof. intros H. apply Z.leb_le in H. simpl. now rewrite H. Qed.

Lemma recordedError_printable url r :
  toString (messageValue r) <> None ->
  carriesStatus (status r) (recordedError url r).
Proof.
  intros H. unfold recordedError.
  destruct (toString (messageValue r)); [reflexivity | congruence].
Qed.

Lemma recordedError_unprintable url r :
  toString (messageValue r) = None -> recordedError url r = typeError.
Proof. intros H. unfold recordedError. now rewrite H. Qed.

(** C6 (as the code has it).  When the first three calls receive
    responses with retryable statuses and nothing aborts the upload,
    exactly three attempts are made and the upload rejects with an
    AggregateError of three errors in attempt order, one per response:
    the [HttpError] carrying that response's status (503 for a 503)
    or, for a body whose parsed value has no string form, the
    TypeError thrown while that error was built. *)
Theorem three_retryable_responses :
  forall k network url options r0 r1 r2,
    undisturbed options ->
    network 0%nat = Responded r0 ->
    network 1%nat = Responded r1 ->
    network 2%nat = Responded r2 ->
    In (status r0) retryOnErrorCodes ->
    In (status r1) retryOnErrorCodes ->
    In (status r2) retryOnErrorCodes ->
    exists run,
      uploadStream (3 + k) network url options = Some run
      /\ attempts run = 3%nat
      /\ calls (final run) = [Responded r0; Responded r1; Responded r2]
      /\ outcome run
         = Rejected
             (AggregateError
                [recordedError url r0; recordedError url r1;
                 recordedError url r2]
                "3 errors encountered during upload")
      /\ Forall
           (fun r =>
              (toString (messageValue r) <> None ->
               carriesStatus (status r) (recordedError url r))
              /\ (toString (messageValue r) = None ->
                  recordedError url r = typeError))
           [r0; r1; r2].
Proof.
  intros k network url options r0 r1 r2 Hquiet H0 H1 H2 Hs0 Hs1 Hs2.
  assert (Hg0 : granted 0 (network 0%nat) = true)
    by (rewrite H0; apply granted_retryable; [lia | assumption]).
  assert (Hg1 : granted 1 (network 1%nat) = true)
    by (rewrite H1; apply granted_retryable; [lia | assumption]).
  assert (He0 : 400 <= status r0)
    by (apply retryable_is_error; now apply includes_In).
  assert (He1 : 400 <= status r1)
    by (apply retryable_is_error; now apply includes_In).
  assert (He2 : 400 <= status r2)
    by (apply retryable_is_error; now apply includes_In).
  unfold uploadStream, retryableFetch, initialState.
  change (3 + k)%nat with (S (S (S k))).
  rewrite loop_retry by assumption. cbn [List.length app].
  rewrite loop_retry by assumption. cbn [List.length app].
  rewrite loop_stop by (assumption || reflexivity). cbn [List.length app].
  rewrite H0, H1, H2.
  rewrite !failureOf_error by assumption.
  apply Z.leb_le in He2. rewrite He2.
  cbn [errorPromises map app promiseAll await].
  eexists. split; [reflexivity|].
  repeat split.
  repeat constructor;
    auto using recordedError_printable, recordedError_unprintable.
Qed.

Lemma three_retryable_responses_witness :
  exists run,
    uploadStream 3 (fun _ => Responded serviceUnavailable) uploadUrl None
    = Some run
    /\ attempts run = 3%nat
    /\ exists h0 h1 h2,
         outcome run
         = Rejected (AggregateError [Http h0; Http h1; Http h2]
                       "3 errors encountered during upload")
         /\ map http_status [h0; h1; h2] = [503; 503; 503].
Proof.
  destruct (three_retryable_responses 0 (fun _ => Responded serviceUnavailable)
              uploadUrl None serviceUnavailable serviceUnavailable
              serviceUnavailable)
    as (run & Hrun & Hn & _ & Hout & _);
    try reflexivity; try (simpl; tauto).
  exists run. split; [exact Hrun|]. split; [exact Hn|].
  rewrite Hout. do 3 eexists. split; reflexivity.
Defined.

(** C6, refuted as stated: three 503 responses whose JSON body is an
    object with an own [toString] key.  Building each [HttpError]
    throws, so the AggregateError holds three TypeErrors and no error
    carrying status 503. *)
Lemma unprintable_bodies_lose_status :
  exists run,
    uploadStream 3 (fun _ => Responded unavailableUnprintable) uploadUrl None
    = Some run
    /\ attempts run = 3%nat
    /\ newHttpError 503 unprintable uploadUrl = Throws typeError
    /\ errorPromise uploadUrl unavailableUnprintable = Fulfilled typeError
    /\ outcome run
       = Rejected (AggregateError [typeError; typeError; typeError]
                     "3 errors encountered during upload")
    /\ ~ (exists errors message,
            outcome run = Rejected (AggregateError errors message)
            /\ Forall (carriesStatus 503) errors).
Proof.
  eexists. split; [reflexivity|].
  repeat split.
  intros (errors & message & [= <- _] & Hall).
  inversion Hall as [|e l Hfirst _]. exact Hfirst.
Qed.

(** C7 (as the code has it).  When the first call receives a response
    with an error status outside the retryable set and nothing aborts
    the upload, exactly one attempt is made, no retry is waited for,
    and the upload rejects with the single error recorded for that
    response, not wrapped in an AggregateError: the [HttpError]
    carrying the response's status or, for a body whose parsed value
    has no string form, the TypeError thrown while that error was
    built. *)
Theorem terminal_status_fails_once :
  forall k network url options r,
    undisturbed options ->
    network 0%nat = Responded r ->
    terminalStatus (status r) ->
    exists run,
      uploadStream (3 + k) network url options = Some run
      /\ attempts run = 1%nat
      /\ waits (final run) = []
      /\ outcome run = Rejected (Single (recordedError url r))
      /\ (toString (messageValue r) <> None ->
          carriesStatus (status r) (recordedError url r))
      /\ (toString (messageValue r) = None ->
          recordedError url r = typeError).
Proof.
  intros k network url options r Hquiet H0 [Herr Hout].
  assert (Hg : granted 0 (network 0%nat) = false)
    by (rewrite H0; now apply granted_terminal).
  unfold uploadStream, retryableFetch, initialState.
  change (3 + k)%nat with (S (S (S k))).
  rewrite loop_stop by assumption. cbn [List.length app].
  rewrite H0, failureOf_error by assumption.
  apply Z.leb_le in Herr. rewrite Herr.
  cbn [errorPromises map app promiseAll await].
  eexists. split; [reflexivity|].
  repeat split;
    auto using recordedError_printable, recordedError_unprintable.
Qed.

Lemma terminal_status_fails_once_witness :
  exists run h,
    uploadStream 3 (fun _ => Responded notFound) uploadUrl None = Some run
    /\ attempts run = 1%nat
    /\ outcome run = Rejected (Single (Http h))
    /\ http_status h = 404
    /\ http_message h = "404: no such upload".
Proof.
  assert (Hout : ~ In (status notFound) retryOnErrorCodes).
  { simpl. intros [H|[H|[H|[H|[H|[]]]]]]; discriminate. }
  assert (Herr : 400 <= status notFound) by (simpl; lia).
  destruct (terminal_status_fails_once 0 (fun _ => Responded notFound)
              uploadUrl None notFound I eq_refl (conj Herr Hout))
    as (run & Hrun & Hn & _ & Hrej & _).
  exists run. eexists. split; [exact Hrun|]. split; [exact Hn|].
  rewrite Hrej. repeat split.
Defined.

(** C7, refuted as stated: a 404 response whose JSON body is an
    object with an own [toString] key.  One attempt is made, and the
    upload rejects with the TypeError thrown while building the
    [HttpError], not with an HTTP error. *)
Lemma unprintable_body_404 :
  exists run,
    uploadStream 3 (fun _ => Responded notFoundUnprintable) uploadUrl None
    = Some run
    /\ attempts run = 1%nat
    /\ errorPromise uploadUrl notFoundUnprintable = Fulfilled typeError
    /\ outcome run = Rejected (Single typeError)
    /\ ~ (exists h, outcome run = Rejected (Single (Http h))).
Proof.
  eexists. split; [reflexivity|].
  repeat split.
  intros (h & H). discriminate H.
Qed.

(** ** Further properties of the upload *)

Lemma errorsOf_consolidate errors : errorsOf (consolidate errors) = errors.
Proof.
  unfold consolidate.
  destruct errors as [|e [|e' l]]; reflexivity.
Qed.

Lemma consolidate_defined errors :
  errors <> [] -> consolidate errors <> Undefined.
Proof.
  intros Hne H. apply Hne.
  rewrite <- (errorsOf_consolidate errors), H. reflexivity.
Qed.

Lemma history_last_error url pre r :
  400 <= status r ->
  history url (pre ++ [Responded r])
  = history url pre ++ [recordedError url r].
Proof.
  intros H. rewrite history_app. unfold history at 2. simpl.
  apply Z.leb_le in H. now rewrite H.
Qed.

Lemma granted_retryableFailure attempt result :
  granted attempt result = true
  <-> (attempt < 2)%nat /\ retryableFailure result.
Proof.
  unfold granted, isUnderRetryLimit.
  rewrite andb_true_iff, Nat.ltb_lt.
  destruct result as [r|e]; cbn [retryableFailure].
  - now rewrite includes_In.
  - tauto.
Qed.

(** X1. Every upload makes at least one and at most three transport
    calls, and before each call but the first it waits the caller's
    delay function applied to the index of the attempt that just
    failed: delay 0, then delay 1. *)
Theorem attempts_and_waits :
  forall k network url options,
  exists run,
    uploadStream (3 + k) network url options = Some run
    /\ (1 <= attempts run <= 3)%nat
    /\ waits (final run)
       = map (fun i => retryDelayOf options (Z.of_nat i))
             (seq 0 (attempts run - 1)).
Proof.
  intros k network url options.
  destruct (upload_explained k network url options)
    as (run & pre & result & Hrun & E).
  exists run. split; [exact Hrun|].
  destruct (explained_attempts _ _ _ _ _ E) as [Hn Hmax].
  split; [lia|].
  rewrite (ex_waits _ _ _ _ _ E), Hn.
  now replace (S (List.length pre) - 1)%nat with (List.length pre) by lia.
Qed.

(** X2. An upload never rejects with [undefined]: whenever the
    consolidation takes element 0 of the awaited errors, that element
    exists. *)
Theorem never_rejects_undefined :
  forall k network url options,
  exists run,
    uploadStream (3 + k) network url options = Some run
    /\ outcome run <> Rejected Undefined.
Proof.
  intros k network url options.
  destruct (upload_explained k network url options)
    as (run & pre & result & Hrun & E).
  exists run. split; [exact Hrun|].
  pose proof (ex_settled _ _ _ _ _ E) as Hs. unfold settlement in Hs.
  destruct result as [r|e].
  - destruct (Z.leb_spec 400 (status r)) as [Hge|Hlt];
      injection Hs as Hout _; rewrite Hout; [|discriminate].
    intros [= H]. revert H. apply consolidate_defined.
    rewrite history_last_error by assumption.
    intros H'. apply app_eq_nil in H' as [_ H']. discriminate.
  - injection Hs as Hout _. rewrite Hout. discriminate.
Qed.

(** X3. A call is followed by another attempt only if it failed in a
    retryable way: it threw, or its response had one of the statuses
    408, 429, 502, 503, 504; and it was the first or the second call.
    So a response with any other status, below 400 or not, ends the
    run. *)
Theorem retries_follow_retryable_failures :
  forall k network url options,
  exists run,
    uploadStream (3 + k) network url options = Some run
    /\ forall pre x post,
         calls (final run) = pre ++ x :: post -> post <> [] ->
         (List.length pre < 2)%nat
         /\ ((exists e, x = Threw e)
             \/ exists r, x = Responded r
                          /\ In (status r) [408; 429; 502; 503; 504]).
Proof.
  intros k network url options.
  destruct (upload_explained k network url options)
    as (run & pre0 & result & Hrun & E).
  exists run. split; [exact Hrun|].
  intros pre x post Hcalls Hpost.
  destruct (exists_last Hpost) as (post' & z & ->).
  rewrite (ex_calls _ _ _ _ _ E) in Hcalls.
  change (pre ++ x :: post' ++ [z]) with (pre ++ (x :: post') ++ [z])
    in Hcalls.
  rewrite app_assoc in Hcalls.
  apply app_inj_tail in Hcalls as [-> _].
  assert (Hg : granted (List.length pre) x = true).
  { apply (ex_retried _ _ _ _ _ E).
    rewrite nth_error_app2 by lia. now rewrite Nat.sub_diag. }
  apply granted_retryableFailure in Hg as [Hlt Hfail].
  split; [exact Hlt|].
  destruct x as [r|e]; [right | left]; eauto.
Qed.

Lemma retries_follow_retryable_failures_witness :
  exists run,
    uploadStream 3 (scripted [Threw connectionReset] (Responded notFound))
                 uploadUrl None
    = Some run
    /\ calls (final run) = [Threw connectionReset; Responded notFound].
Proof.
  destruct (retries_follow_retryable_failures 0
              (scripted [Threw connectionReset] (Responded notFound))
              uploadUrl None) as (run & Hrun & H).
  exists run. split; [exact Hrun|].
  assert (Hrun' := Hrun). vm_compute in Hrun'. injection Hrun' as <-.
  destruct (H [] (Threw connectionReset) [Responded notFound] eq_refl
              ltac:(discriminate)) as [_ _].
  reflexivity.
Defined.

(** X4. When a run ends with an HTTP error response, the rejection
    hands the caller exactly one error per attempt made, in attempt
    order: the single error itself after one attempt, an AggregateError
    naming the number of attempts after two or three. *)
Theorem consolidated_rejection_counts_attempts :
  forall k network url options,
  exists run,
    uploadStream (3 + k) network url options = Some run
    /\ forall pre r,
         calls (final run) = pre ++ [Responded r] -> 400 <= status r ->
         exists rejection,
           outcome run = Rejected rejection
           /\ errorsOf rejection = history url (calls (final run))
           /\ List.length (errorsOf rejection) = attempts run
           /\ (attempts run = 1%nat ->
               rejection = Single (recordedError url r))
           /\ ((2 <= attempts run)%nat ->
               rejection
               = AggregateError (errorsOf rejection)
                   (numberToString (Z.of_nat (attempts run))
                      ++ " errors encountered during upload")%string).
Proof.
  intros k network url options.
  destruct (upload_explained k network url options)
    as (run & pre & result & Hrun & E).
  exists run. split; [exact Hrun|].
  intros pre' r Hcalls Hstatus.
  destruct (explained_last _ _ _ _ _ _ _ E Hcalls) as [-> <-].
  destruct (explained_attempts _ _ _ _ _ E) as [Hn _].
  pose proof (ex_settled _ _ _ _ _ E) as Hs. unfold settlement in Hs.
  pose proof Hstatus as Hb. apply Z.leb_le in Hb. rewrite Hb in Hs.
  injection Hs as Hout _.
  assert (Hlen : List.length (history url (pre ++ [Responded r]))
                 = attempts run).
  { rewrite history_last_error, length_app by assumption.
    rewrite (history_retried url pre (ex_retried _ _ _ _ _ E)).
    simpl. lia. }
  exists (consolidate (history url (pre ++ [Responded r]))).
  rewrite errorsOf_consolidate, Hcalls.
  repeat split; auto.
  - intros Hone. rewrite Hn in Hone.
    destruct pre; [|discriminate]. simpl.
    apply Z.leb_le in Hstatus. unfold history. simpl. now rewrite Hb.
  - intros Htwo. rewrite consolidate_many by lia.
    unfold aggregateMessage. now rewrite Hlen.
Qed.

Lemma consolidated_rejection_counts_attempts_witness :
  exists run,
    uploadStream 3 (scripted [Threw connectionReset] (Responded notFound))
                 uploadUrl None
    = Some run
    /\ outcome run
       = Rejected
           (AggregateError
              [connectionReset; recordedError uploadUrl notFound]
              "2 errors encountered during upload").
Proof.
  destruct (consolidated_rejection_counts_attempts 0
              (scripted [Threw connectionReset] (Responded notFound))
              uploadUrl None) as (run & Hrun & H).
  exists run. split; [exact Hrun|].
  assert (Hrun' := Hrun). vm_compute in Hrun'. injection Hrun' as <-.
  destruct (H [Threw connectionReset] notFound eq_refl ltac:(simpl; lia))
    as (rejection & Hout & Herrors & _ & _ & Hmany).
  rewrite Hout. f_equal.
  rewrite (Hmany ltac:(unfold attempts; simpl; lia)), Herrors.
  reflexivity.
Defined.

(** X5. The recorded error promises are awaited exactly when the run
    ends with an HTTP error response; a run that ends with a thrown
    error or with a response below 400 never awaits them. *)
Theorem consolidated_iff_http_error :
  forall k network url options,
  exists run,
    uploadStream (3 + k) network url options = Some run
    /\ (consolidated run = true
        <-> exists pre r,
              calls (final run) = pre ++ [Responded r] /\ 400 <= status r).
Proof.
  intros k network url options.
  destruct (upload_explained k network url options)
    as (run & pre & result & Hrun & E).
  exists run. split; [exact Hrun|].
  pose proof (ex_settled _ _ _ _ _ E) as Hs. unfold settlement in Hs.
  split.
  - intros Hcons. destruct result as [r|e].
    + destruct (Z.leb_spec 400 (status r)) as [Hge|Hlt].
      * exists pre, r. split; [apply (ex_calls _ _ _ _ _ E) | exact Hge].
      * injection Hs as _ Hc. congruence.
    + injection Hs as _ Hc. congruence.
  - intros (pre' & r & Hcalls & Hge).
    destruct (explained_last _ _ _ _ _ _ _ E Hcalls) as [_ <-].
    apply Z.leb_le in Hge. rewrite Hge in Hs. now injection Hs.
Qed.

(** X6. Without an activity monitor nothing can abort the upload: the
    signal stays untouched, and a run that ends with a thrown error
    rejects with exactly that error. *)
Theorem no_monitor_rejects_with_thrown_error :
  forall k network url options,
    timeoutMonitorOf options = None ->
    exists run,
      uploadStream (3 + k) network url options = Some run
      /\ signal (final run) = freshSignal
      /\ forall pre e,
           calls (final run) = pre ++ [Threw e] ->
           outcome run = Rejected (Single e) /\ consolidated run = false.
Proof.
  intros k network url options Hnone.
  destruct (upload_explained k network url options)
    as (run & pre & result & Hrun & E).
  exists run. split; [exact Hrun|].
  split; [apply (ex_no_monitor _ _ _ _ _ E Hnone)|].
  intros pre' e Hcalls.
  destruct (explained_last _ _ _ _ _ _ _ E Hcalls) as [_ <-].
  pose proof (ex_settled _ _ _ _ _ E) as Hs.
  unfold settlement, reasonOr in Hs. rewrite Hnone in Hs.
  injection Hs as Hout Hcons. auto.
Qed.

Lemma no_monitor_rejects_with_thrown_error_witness :
  exists run,
    uploadStream 3 (fun _ => Threw connectionReset) uploadUrl
                 (Some (mkOptions (Some geometricRetry) None))
    = Some run
    /\ outcome run = Rejected (Single connectionReset).
Proof.
  destruct (no_monitor_rejects_with_thrown_error 0
              (fun _ => Threw connectionReset) uploadUrl
              (Some (mkOptions (Some geometricRetry) None)) eq_refl)
    as (run & Hrun & _ & H).
  exists run. split; [exact Hrun|].
  assert (Hrun' := Hrun). vm_compute in Hrun'. injection Hrun' as <-.
  apply (H [Threw connectionReset; Threw connectionReset] connectionReset
           eq_refl).
Defined.

(** X7. When the controller was aborted without a recorded reason, the
    upload rejects with the abort error of the transport, after the
    third attempt and without awaiting the recorded errors. *)
Theorem abort_without_reason :
  forall k network url options,
  exists run,
    uploadStream (3 + k) network url options = Some run
    /\ (aborted (signal (final run)) = true ->
        reason (signal (final run)) = None ->
        outcome run = Rejected (Single abortError)
        /\ consolidated run = false
        /\ attempts run = 3%nat).
Proof.
  intros k network url options.
  destruct (upload_explained k network url options)
    as (run & pre & result & Hrun & E).
  exists run. split; [exact Hrun|].
  intros Hab Hreason.
  destruct (ex_aborted _ _ _ _ _ E Hab) as (-> & Hmon & Hlen).
  pose proof (ex_settled _ _ _ _ _ E) as Hs.
  unfold settlement, reasonOr in Hs. rewrite Hreason in Hs.
  destruct (explained_attempts _ _ _ _ _ E) as [Hn _].
  destruct (timeoutMonitorOf options); injection Hs as Hout Hcons;
    repeat split; auto; lia.
Qed.

Lemma abort_without_reason_witness :
  exists run,
    uploadStream 3 (fun _ => Responded ok) uploadUrl
      (Some (mkOptions None (Some (mkMonitor (fun _ => Stalled None)))))
    = Some run
    /\ outcome run = Rejected (Single abortError)
    /\ attempts run = 3%nat.
Proof.
  destruct (abort_without_reason 0 (fun _ => Responded ok) uploadUrl
              (Some (mkOptions None
                       (Some (mkMonitor (fun _ => Stalled None))))))
    as (run & Hrun & H).
  exists run. split; [exact Hrun|].
  assert (Hrun' := Hrun). vm_compute in Hrun'. injection Hrun' as <-.
  destruct (H eq_refl eq_refl) as (Hout & _ & Hn).
  split; assumption.
Defined.

(** X8. With the geometric delay of production, the retry waits of a
    run add up to 0, 500 or 1500 milliseconds: never more than a
    second and a half is spent waiting. *)
Theorem geometric_backoff_bounded :
  forall k network url mon,
  exists run,
    uploadStream (3 + k) network url
                 (Some (mkOptions (Some geometricRetry) mon))
    = Some run
    /\ (waits (final run) = []
        \/ waits (final run) = [500]
        \/ waits (final run) = [500; 1000])
    /\ 0 <= total (waits (final run)) <= 1500.
Proof.
  intros k network url mon.
  destruct (upload_explained k network url
              (Some (mkOptions (Some geometricRetry) mon)))
    as (run & pre & result & Hrun & E).
  exists run. split; [exact Hrun|].
  destruct (explained_attempts _ _ _ _ _ E) as [Hn Hmax].
  rewrite (ex_waits _ _ _ _ _ E).
  destruct pre as [|x [|y [|z pre]]]; simpl in *.
  - split; [auto | vm_compute; split; discriminate].
  - split; [auto | vm_compute; split; discriminate].
  - split; [auto | vm_compute; split; discriminate].
  - lia.
Qed.

(** ** Further properties of the retry policy and the consolidation *)

(** X9. [retryOn] only ever appends to the recorded error promises:
    what was recorded before stays, in place, and one promise is added
    for a response with status 400 or more and one for an error (the
    HTTP error first) whatever the attempt index and the limit are,
    also when no retry is granted. *)
Theorem retryOn_only_appends :
  forall url attempt retries error response promises,
  exists added,
    snd (retryOn url attempt retries error response promises)
    = promises ++ added
    /\ List.length added
       = ((match response with
           | Some r => if (400 <=? status r)%Z then 1 else 0
           | None => 0
           end)
          + (match error with
             | Some _ => 1
             | None => 0
             end))%nat
    /\ (forall r e, response = Some r -> 400 <= status r ->
                    error = Some e ->
                    added = [errorPromise url r; Fulfilled e]).
Proof.
  intros url attempt retries error response promises.
  unfold retryOn, record. cbn [snd].
  destruct response as [r|]; destruct error as [e|];
    try rewrite truthy_and_error;
    try destruct (Z.leb_spec 400 (status r)) as [Hge|Hlt].
  - exists [errorPromise url r; Fulfilled e].
    rewrite <- app_assoc. repeat split; auto.
    intros r' e' [= <-] _ [= <-]. reflexivity.
  - exists [Fulfilled e]. repeat split; auto.
    intros r' e' [= <-] Hge. lia.
  - exists [errorPromise url r]. repeat split; auto. discriminate.
  - exists []. rewrite app_nil_r. repeat split; auto. discriminate.
  - exists [Fulfilled e]. repeat split; auto. discriminate.
  - exists []. rewrite app_nil_r. repeat split; auto. discriminate.
Qed.

(** X10. A response with a status below 400 and no error is neither
    recorded nor retried, at any attempt index and for any limit:
    every retryable status is an error status. *)
Theorem success_neither_recorded_nor_retried :
  forall url attempt retries r promises,
    status r < 400 ->
    retryOn url attempt retries None (Some r) promises = (false, promises).
Proof.
  intros url attempt retries r promises Hlt.
  unfold retryOn, record, isRetryableHttpError, isNetworkError.
  rewrite truthy_and_error, truthy_and_includes.
  assert (H400 : (400 <=? status r) = false) by now apply Z.leb_gt.
  assert (Hin : includes retryOnErrorCodes (status r) = false).
  { destruct (includes retryOnErrorCodes (status r)) eqn:H; [|reflexivity].
    apply retryable_is_error in H. lia. }
  rewrite H400, Hin. simpl. now rewrite andb_false_r.
Qed.

Lemma success_neither_recorded_nor_retried_witness :
  retryOn uploadUrl 0 2 None (Some ok) [Fulfilled connectionReset]
  = (false, [Fulfilled connectionReset]).
Proof.
  apply (success_neither_recorded_nor_retried uploadUrl 0 2 ok).
  simpl. lia.
Defined.

(** X11. The consolidation neither loses nor reorders an error: the
    errors of the rejection are the awaited errors.  It yields
    [undefined] only for no error, the error itself for exactly one,
    and an AggregateError for two or more. *)
Theorem consolidate_keeps_errors :
  forall errors,
    errorsOf (consolidate errors) = errors
    /\ (consolidate errors = Undefined <-> errors = [])
    /\ ((exists e, consolidate errors = Single e)
        <-> List.length errors = 1%nat)
    /\ ((exists l message, consolidate errors = AggregateError l message)
        <-> (2 <= List.length errors)%nat).
Proof.
  intros errors. split; [apply errorsOf_consolidate|].
  destruct errors as [|e [|e' l]]; unfold consolidate; simpl.
  - repeat split; auto; try discriminate; try lia.
    + intros [e H]. discriminate.
    + intros (l & m & H). discriminate.
  - repeat split; auto; try discriminate; try lia.
    + intros _. now exists e.
    + intros (l & m & H). discriminate.
  - repeat split; auto; try discriminate; try lia.
    + intros [x H]. discriminate.
    + intros _. eauto.
Qed.

(** ** Further scenarios without cancellation *)

Lemma granted_success attempt r :
  status r < 400 -> granted attempt (Responded r) = false.
Proof.
  intros Hlt. apply granted_terminal. intros Hin.
  apply includes_In, retryable_is_error in Hin. lia.
Qed.

Lemma reasonOr_fresh timeoutMonitor promises made waited e :
  reasonOr timeoutMonitor (mkState promises freshSignal made waited) e = e.
Proof. destruct timeoutMonitor; reflexivity. Qed.

(** X12. When the first call receives a response with a status below
    400 and nothing aborts the upload, the upload resolves after that
    single call: nothing is recorded and nothing is waited for. *)
Theorem first_success_resolves :
  forall k network url options r,
    undisturbed options ->
    network 0%nat = Responded r ->
    status r < 400 ->
    exists run,
      uploadStream (3 + k) network url options = Some run
      /\ outcome run = Resolved
      /\ calls (final run) = [Responded r]
      /\ errorPromises (final run) = []
      /\ waits (final run) = [].
Proof.
  intros k network url options r Hquiet H0 Hlt.
  assert (Hg : granted 0 (network 0%nat) = false)
    by (rewrite H0; now apply granted_success).
  unfold uploadStream, retryableFetch, initialState.
  change (3 + k)%nat with (S (S (S k))).
  rewrite loop_stop by assumption. cbn [List.length app].
  rewrite H0. apply Z.leb_gt in Hlt. cbn [failureOf]. rewrite Hlt.
  eexists. split; [reflexivity|]. repeat split.
Qed.

Lemma first_success_resolves_witness :
  exists run,
    uploadStream 3 (fun _ => Responded ok) uploadUrl None = Some run
    /\ outcome run = Resolved
    /\ attempts run = 1%nat.
Proof.
  destruct (first_success_resolves 0 (fun _ => Responded ok) uploadUrl None
              ok I eq_refl ltac:(simpl; lia))
    as (run & Hrun & Hout & Hcalls & _).
  exists run. split; [exact Hrun|]. split; [exact Hout|].
  unfold attempts. now rewrite Hcalls.
Defined.

(** X13. When the first call fails in a retryable way (it throws, or
    its response has a retryable status), the second call receives a
    response with a status below 400, and nothing aborts the upload,
    the upload resolves after two calls and one wait; the error
    recorded for the first call is never awaited. *)
Theorem retry_then_success_resolves :
  forall k network url options r,
    undisturbed options ->
    retryableFailure (network 0%nat) ->
    network 1%nat = Responded r ->
    status r < 400 ->
    exists run,
      uploadStream (3 + k) network url options = Some run
      /\ outcome run = Resolved
      /\ calls (final run) = [network 0%nat; Responded r]
      /\ errorPromises (final run)
         = map Fulfilled (failureOf url (network 0%nat))
      /\ List.length (errorPromises (final run)) = 1%nat
      /\ waits (final run) = [retryDelayOf options 0]
      /\ consolidated run = false.
Proof.
  intros k network url options r Hquiet Hfail H1 Hlt.
  assert (Hg0 : granted 0 (network 0%nat) = true)
    by (apply granted_retryableFailure; split; [lia | assumption]).
  assert (Hg1 : granted 1 (network 1%nat) = false)
    by (rewrite H1; now apply granted_success).
  unfold uploadStream, retryableFetch, initialState.
  change (3 + k)%nat with (S (S (S k))).
  rewrite loop_retry by assumption. cbn [List.length app].
  rewrite loop_stop by assumption. cbn [List.length app].
  rewrite H1. apply Z.leb_gt in Hlt. cbn [failureOf]. rewrite Hlt.
  eexists. split; [reflexivity|]. cbn [map]. rewrite app_nil_r.
  repeat split.
  cbn [final errorPromises]. rewrite length_map.
  apply (granted_fails url 0). exact Hg0.
Qed.

Lemma retry_then_success_resolves_witness :
  exists run,
    uploadStream 3 (scripted [Threw connectionReset] (Responded ok))
                 uploadUrl None
    = Some run
    /\ outcome run = Resolved
    /\ errorPromises (final run) = [Fulfilled connectionReset].
Proof.
  destruct (retry_then_success_resolves 0
              (scripted [Threw connectionReset] (Responded ok))
              uploadUrl None ok I I eq_refl ltac:(simpl; lia))
    as (run & Hrun & Hout & _ & Hrec & _).
  exists run. split; [exact Hrun|]. split; [exact Hout | exact Hrec].
Defined.

(** X14. When the first two calls fail in a retryable way, the third
    call throws, and nothing aborts the upload, three calls are made
    and the upload rejects with the error of the third call alone,
    without awaiting the three recorded errors. *)
Theorem third_throw_surfaces_alone :
  forall k network url options e,
    undisturbed options ->
    retryableFailure (network 0%nat) ->
    retryableFailure (network 1%nat) ->
    network 2%nat = Threw e ->
    exists run,
      uploadStream (3 + k) network url options = Some run
      /\ outcome run = Rejected (Single e)
      /\ calls (final run) = [network 0%nat; network 1%nat; Threw e]
      /\ List.length (errorPromises (final run)) = 3%nat
      /\ consolidated run = false.
Proof.
  intros k network url options e Hquiet Hf0 Hf1 H2.
  assert (Hg0 : granted 0 (network 0%nat) = true)
    by (apply granted_retryableFailure; split; [lia | assumption]).
  assert (Hg1 : granted 1 (network 1%nat) = true)
    by (apply granted_retryableFailure; split; [lia | assumption]).
  assert (Hg2 : granted 2 (network 2%nat) = false)
    by (rewrite H2; reflexivity).
  unfold uploadStream, retryableFetch, initialState.
  change (3 + k)%nat with (S (S (S k))).
  rewrite loop_retry by assumption. cbn [List.length app].
  rewrite loop_retry by assumption. cbn [List.length app].
  rewrite loop_stop by assumption. cbn [List.length app].
  rewrite H2, reasonOr_fresh.
  eexists. split; [reflexivity|]. repeat split.
  cbn [final errorPromises]. rewrite !length_app, !length_map.
  rewrite (granted_fails url 0 _ Hg0), (granted_fails url 1 _ Hg1).
  reflexivity.
Qed.

Lemma third_throw_surfaces_alone_witness :
  exists run,
    uploadStream 3
      (scripted [Responded serviceUnavailable; Threw connectionReset]
                (Threw abortError))
      uploadUrl None
    = Some run
    /\ outcome run = Rejected (Single abortError).
Proof.
  destruct (third_throw_surfaces_alone 0
              (scripted [Responded serviceUnavailable; Threw connectionReset]
                        (Threw abortError))
              uploadUrl None abortError I
              ltac:(simpl; tauto) I eq_refl)
    as (run & Hrun & Hout & _).
  exists run. split; [exact Hrun | exact Hout].
Defined.

(** X15. When the first call fails in a retryable way, the second
    call receives a response with an error status outside the
    retryable set, and nothing aborts the upload, two calls are made
    and the upload rejects with an AggregateError of two errors, the
    error of the first call and then the error recorded for the
    response, under the message "2 errors encountered during
    upload". *)
Theorem failure_then_terminal_status :
  forall k network url options r,
    undisturbed options ->
    retryableFailure (network 0%nat) ->
    network 1%nat = Responded r ->
    terminalStatus (status r) ->
    exists run first,
      uploadStream (3 + k) network url options = Some run
      /\ failureOf url (network 0%nat) = [first]
      /\ outcome run
         = Rejected (AggregateError [first; recordedError url r]
                       "2 errors encountered during upload")
      /\ attempts run = 2%nat
      /\ consolidated run = true.
Proof.
  intros k network url options r Hquiet Hfail H1 [Herr Hout].
  assert (Hg0 : granted 0 (network 0%nat) = true)
    by (apply granted_retryableFailure; split; [lia | assumption]).
  assert (Hg1 : granted 1 (network 1%nat) = false)
    by (rewrite H1; now apply granted_terminal).
  pose proof (granted_fails url 0 _ Hg0) as Hone.
  destruct (failureOf url (network 0%nat)) as [|first [|second l]] eqn:Hf;
    try discriminate.
  unfold uploadStream, retryableFetch, initialState.
  change (3 + k)%nat with (S (S (S k))).
  rewrite loop_retry by assumption. cbn [List.length app].
  rewrite loop_stop by assumption. cbn [List.length app].
  rewrite H1, Hf, failureOf_error by assumption.
  apply Z.leb_le in Herr. rewrite Herr.
  cbn [errorPromises map app promiseAll await].
  eexists. exists first. split; [reflexivity|]. repeat split.
Qed.

Lemma failure_then_terminal_status_witness :
  exists run,
    uploadStream 3 (scripted [Threw connectionReset] (Responded notFound))
                 uploadUrl None
    = Some run
    /\ outcome run
       = Rejected
           (AggregateError
              [connectionReset; recordedError uploadUrl notFound]
              "2 errors encountered during upload").
Proof.
  assert (Hterminal : terminalStatus (status notFound)).
  { split; [simpl; lia|].
    simpl. intros [H|[H|[H|[H|[H|[]]]]]]; discriminate. }
  destruct (failure_then_terminal_status 0
              (scripted [Threw connectionReset] (Responded notFound))
              uploadUrl None notFound I I eq_refl Hterminal)
    as (run & first & Hrun & Hfirst & Hout & _).
  exists run. split; [exact Hrun|].
  injection Hfirst as <-. exact Hout.
Defined.

(** ** Escaping *)

Lemma replaceAll_char_cons c replacement x s :
  replaceAll (String c "") replacement (String x s)
  = if Ascii.eqb c x
    then (replacement ++ replaceAll (String c "") replacement s)%string
    else String x (replaceAll (String c "") replacement s).
Proof.
  unfold replaceAll. cbn [replaceFrom prefix String.length Nat.sub].
  destruct (ascii_dec c x) as [->|Hne].
  - rewrite Ascii.eqb_refl. now destruct s.
  - apply Ascii.eqb_neq in Hne. now rewrite Hne.
Qed.

Lemma escape_backtick s :
  escapeString (String "`" s) = String "\" (String "`" (escapeString s)).
Proof.
  unfold escapeString. rewrite replaceAll_char_cons, Ascii.eqb_refl.
  cbn [append]. rewrite replaceAll_char_cons.
  change (Ascii.eqb "$" "\") with false. cbv iota.
  rewrite replaceAll_char_cons.
  change (Ascii.eqb "$" "`") with false. reflexivity.
Qed.

Lemma escape_dollar s :
  escapeString (String "$" s) = String "\" (String "$" (escapeString s)).
Proof.
  unfold escapeString. rewrite replaceAll_char_cons.
  change (Ascii.eqb "`" "$") with false. cbv iota.
  rewrite replaceAll_char_cons, Ascii.eqb_refl. reflexivity.
Qed.

Lemma escape_other x s :
  x <> "`"%char -> x <> "$"%char ->
  escapeString (String x s) = String x (escapeString s).
Proof.
  intros Hb Hd. unfold escapeString.
  rewrite replaceAll_char_cons.
  assert (H1 : Ascii.eqb "`" x = false) by (apply Ascii.eqb_neq; congruence).
  rewrite H1, replaceAll_char_cons.
  assert (H2 : Ascii.eqb "$" x = false) by (apply Ascii.eqb_neq; congruence).
  now rewrite H2.
Qed.

Lemma escape_empty : escapeString "" = "".
Proof. reflexivity. Qed.

(** The three ways a string can begin. *)
Lemma head_cases (x : ascii) :
  x = "`"%char \/ x = "$"%char \/ (x <> "`"%char /\ x <> "$"%char).
Proof.
  destruct (ascii_dec x "`"); [auto|].
  destruct (ascii_dec x "$"); auto.
Qed.

Ltac escape_head x s :=
  destruct (head_cases x) as [->|[->|[? ?]]];
  [rewrite (escape_backtick s)
  |rewrite (escape_dollar s)
  |rewrite (escape_other x s) by assumption].

(** X16. In the text [escapeString] returns, every backtick and every
    dollar is immediately preceded by a backslash. *)
Theorem escapeString_guards :
  forall s i c,
    get i (escapeString s) = Some c ->
    c = "`"%char \/ c = "$"%char ->
    exists j, i = S j /\ get j (escapeString s) = Some "\"%char.
Proof.
  induction s as [|x s IH]; intros i c Hget Hc.
  - destruct i; discriminate.
  - revert Hget. escape_head x s; intros Hget.
    + destruct i as [|[|i]]; simpl in Hget.
      * injection Hget as <-. destruct Hc; discriminate.
      * exists 0%nat. auto.
      * destruct (IH i c Hget Hc) as (j & -> & Hj).
        exists (S (S j)). auto.
    + destruct i as [|[|i]]; simpl in Hget.
      * injection Hget as <-. destruct Hc; discriminate.
      * exists 0%nat. auto.
      * destruct (IH i c Hget Hc) as (j & -> & Hj).
        exists (S (S j)). auto.
    + destruct i as [|i]; simpl in Hget.
      * injection Hget as <-. destruct Hc; contradiction.
      * destruct (IH i c Hget Hc) as (j & -> & Hj).
        exists (S j). auto.
Qed.

Lemma escapeString_guards_witness :
  exists j, 2%nat = S j
            /\ get j (escapeString "a`b") = Some "\"%char.
Proof.
  apply (escapeString_guards "a`b" 2 "`"); [reflexivity | now left].
Defined.

(** X17. [escapeString] lengthens a text by one character for each
    backtick and each dollar in it, and returns a text unchanged
    exactly when it contains neither. *)
Theorem escapeString_length :
  forall s,
    String.length (escapeString s)
    = (String.length s + occurrences "`" s + occurrences "$" s)%nat
    /\ (escapeString s = s
        <-> occurrences "`" s = 0%nat /\ occurrences "$" s = 0%nat).
Proof.
  assert (Hlen : forall s,
             String.length (escapeString s)
             = (String.length s + occurrences "`" s + occurrences "$" s)%nat).
  { induction s as [|x s IH]; [reflexivity|].
    escape_head x s; cbn [String.length occurrences].
    - rewrite IH. cbn [Ascii.eqb Bool.eqb]. simpl. lia.
    - rewrite IH. cbn [Ascii.eqb Bool.eqb]. simpl. lia.
    - rewrite IH.
      assert (H1 : Ascii.eqb x "`" = false) by now apply Ascii.eqb_neq.
      assert (H2 : Ascii.eqb x "$" = false) by now apply Ascii.eqb_neq.
      rewrite H1, H2. lia. }
  intros s. split; [apply Hlen|]. split.
  - intros Heq. pose proof (Hlen s) as H. rewrite Heq in H. lia.
  - induction s as [|x s IH]; [reflexivity|].
    cbn [occurrences]. intros [Hb Hd].
    destruct (Ascii.eqb x "`") eqn:H1; [discriminate|].
    destruct (Ascii.eqb x "$") eqn:H2; [discriminate|].
    apply Ascii.eqb_neq in H1, H2.
    rewrite escape_other by assumption.
    rewrite IH; [reflexivity | split; assumption].
Qed.

(** X18. Escaping works character by character: the escape of a
    concatenation is the concatenation of the escapes. *)
Theorem escapeString_append :
  forall s t,
    escapeString (s ++ t) = (escapeString s ++ escapeString t)%string.
Proof.
  induction s as [|x s IH]; intros t; [reflexivity|].
  cbn [append].
  destruct (head_cases x) as [->|[->|[Hb Hd]]].
  - rewrite !escape_backtick, IH. reflexivity.
  - rewrite !escape_dollar, IH. reflexivity.
  - rewrite !escape_other, IH by assumption. reflexivity.
Qed.

(** X19. [escapeString] never maps two different texts to the same
    text. *)
Theorem escapeString_injective :
  forall s t, escapeString s = escapeString t -> s = t.
Proof.
  induction s as [|x s IH]; intros t Heq.
  - destruct t as [|y t]; [reflexivity|].
    revert Heq. escape_head y t; discriminate.
  - destruct t as [|y t].
    + revert Heq. escape_head x s; discriminate.
    + revert Heq.
      destruct (head_cases x) as [->|[->|[Hxb Hxd]]];
        destruct (head_cases y) as [->|[->|[Hyb Hyd]]];
        rewrite ?escape_backtick, ?escape_dollar, ?escape_other by assumption;
        intros Heq; try discriminate;
        try (injection Heq as Heq; f_equal; now apply IH).
      * injection Heq as <- Heq. destruct t as [|z t]; [discriminate|].
        revert Heq. escape_head z t; intros Heq; try discriminate.
        injection Heq as <- _. contradiction.
      * injection Heq as <- Heq. destruct t as [|z t]; [discriminate|].
        revert Heq. escape_head z t; intros Heq; try discriminate.
        injection Heq as <- _. contradiction.
      * injection Heq as -> Heq. destruct s as [|z s]; [discriminate|].
        revert Heq. escape_head z s; intros Heq; try discriminate.
        injection Heq as -> _. contradiction.
      * injection Heq as -> Heq. destruct s as [|z s]; [discriminate|].
        revert Heq. escape_head z s; intros Heq; try discriminate.
        injection Heq as -> _. contradiction.
      * injection Heq as -> Heq. f_equal. now apply IH.
Qed.

Lemma escapeString_injective_witness :
  "cost: $5" = "cost: $5".
Proof.
  apply (escapeString_injective "cost: $5" "cost: $5"). reflexivity.
Defined.

(** X20. The richer message is the string form of the parsed body:
    for a JSON object without an own [toString] key the recorded
    [HttpError] keeps the object as its status text, and its message
    is the status followed by "[object Object]". *)
Theorem object_body_message :
  forall url r fields,
    json r = Fulfilled (JObj fields) ->
    hasOwn "toString" fields = false ->
    errorPromise url r
    = Fulfilled
        (Http (mkHttpError (status r) (JObj fields) url
                 (numberToString (status r) ++ ": [object Object]")%string)).
Proof.
  intros url r fields Hjson Hown.
  rewrite errorPromise_resolves.
  unfold recordedError, messageValue. rewrite Hjson.
  cbn [toString]. now rewrite Hown.
Qed.

Lemma object_body_message_witness :
  errorPromise uploadUrl
    (mkResponse 403 "Forbidden"
       (Fulfilled (JObj [("message", JStr "signature expired")])))
  = Fulfilled
      (Http (mkHttpError 403 (JObj [("message", JStr "signature expired")])
               uploadUrl "403: [object Object]")).
Proof.
  apply (object_body_message uploadUrl
           (mkResponse 403 "Forbidden"
              (Fulfilled (JObj [("message", JStr "signature expired")])))
           [("message", JStr "signature expired")]);
    reflexivity.
Defined.

(** ** The run is determined by the network and the monitor *)

Section Determined.

Variable network : Network.
Variable destinationUrl : string.
Variable options : option UploadStreamOptions.

Local Notation monitor := (timeoutMonitorOf options).
Local Notation delay := (retryDelayOf options).
Local Notation fetch := (crossFetch network monitor).
Local Notation policy := (retryOnState destinationUrl).
Local Notation loop := (extendedFetch fetch 2 delay policy).
Local Notation answer := (observed network monitor).

Lemma signalOf_zero : signalOf monitor 0 = freshSignal.
Proof. unfold signalOf. now destruct monitor. Qed.

Lemma fetch_observed promises made waited n :
  List.length made = n ->
  fetch (mkState promises (signalOf monitor n) made waited)
  = (answer n,
     mkState promises (signalOf monitor (S n)) (made ++ [answer n]) waited).
Proof.
  intros <-.
  unfold crossFetch, observed, signalOf. cbn [calls signal errorPromises waits].
  destruct monitor as [m|]; [|reflexivity].
  cbn [signalAfter].
  destruct (aborted (signalAfter m (List.length made))) eqn:Hab.
  - rewrite Hab. reflexivity.
  - destruct (during m (List.length made)); [now rewrite Hab | reflexivity].
Qed.

Lemma step_retry fuel attempt promises made waited n :
  List.length made = n ->
  granted attempt (answer n) = true ->
  loop (S fuel) attempt (mkState promises (signalOf monitor n) made waited)
  = loop fuel (S attempt)
      (mkState
         (promises ++ map Fulfilled (failureOf destinationUrl (answer n)))
         (signalOf monitor (S n))
         (made ++ [answer n])
         (waited ++ [delay (Z.of_nat attempt)])).
Proof.
  intros Hn Hg. cbn [extendedFetch].
  rewrite (fetch_observed _ _ _ _ Hn), policy_spec, Hg. reflexivity.
Qed.

Lemma step_stop fuel attempt promises made waited n :
  List.length made = n ->
  granted attempt (answer n) = false ->
  loop (S fuel) attempt (mkState promises (signalOf monitor n) made waited)
  = Some (answer n,
          mkState
            (promises ++ map Fulfilled (failureOf destinationUrl (answer n)))
            (signalOf monitor (S n))
            (made ++ [answer n])
            waited).
Proof.
  intros Hn Hg. cbn [extendedFetch].
  rewrite (fetch_observed _ _ _ _ Hn), policy_spec, Hg. reflexivity.
Qed.

Lemma granted_at_limit result : granted 2 result = false.
Proof. reflexivity. Qed.

(** The retrying fetch settles with the last expected call, having
    made the expected calls, recorded their errors in order and waited
    before each retry. *)
Lemma retryableFetch_determined k :
  retryableFetch network destinationUrl options (3 + k)
  = Some (last (expectedCalls network options) (answer 0%nat),
          mkState
            (map Fulfilled
                 (history destinationUrl (expectedCalls network options)))
            (signalOf monitor (List.length (expectedCalls network options)))
            (expectedCalls network options)
            (map (fun i => delay (Z.of_nat i))
                 (seq 0 (List.length (expectedCalls network options) - 1)))).
Proof.
  unfold retryableFetch, initialState, expectedCalls.
  change (3 + k)%nat with (S (S (S k))).
  rewrite <- signalOf_zero.
  destruct (granted 0 (answer 0%nat)) eqn:Hg0.
  - rewrite (step_retry _ _ _ [] _ 0%nat eq_refl Hg0).
    destruct (granted 1 (answer 1%nat)) eqn:Hg1.
    + rewrite (step_retry _ _ _ ([] ++ [_]) _ 1%nat eq_refl Hg1).
      rewrite (step_stop _ _ _ (([] ++ [_]) ++ [_]) _ 2%nat eq_refl (granted_at_limit _)).
      cbn [List.length app last Nat.sub seq map].
      unfold history. cbn [flat_map]. rewrite !map_app, app_nil_r.
      now rewrite <- !app_assoc.
    + rewrite (step_stop _ _ _ ([] ++ [_]) _ 1%nat eq_refl Hg1).
      cbn [List.length app last Nat.sub seq map].
      unfold history. cbn [flat_map]. rewrite !map_app, app_nil_r.
      reflexivity.
  - rewrite (step_stop _ _ _ [] _ 0%nat eq_refl Hg0).
    cbn [List.length app last Nat.sub seq map].
    unfold history. cbn [flat_map]. now rewrite app_nil_r.
Qed.

End Determined.

Lemma upload_determined k network url options :
  exists run,
    uploadStream (3 + k) network url options = Some run
    /\ calls (final run) = expectedCalls network options
    /\ errorPromises (final run)
       = map Fulfilled (history url (expectedCalls network options))
    /\ signal (final run)
       = signalOf (timeoutMonitorOf options)
                  (List.length (expectedCalls network options))
    /\ (outcome run, consolidated run)
       = settlement url options
           (last (expectedCalls network options)
                 (observed network (timeoutMonitorOf options) 0))
           (final run)
           (history url (expectedCalls network options)).
Proof.
  unfold uploadStream. rewrite retryableFetch_determined.
  destruct (last (expectedCalls network options) _) as [r|e] eqn:Hlast.
  - destruct (400 <=? status r) eqn:Hs.
    + cbn [errorPromises]. rewrite promiseAll_fulfilled. cbn [await].
      eexists. split; [reflexivity|].
      cbn [final outcome consolidated calls errorPromises signal].
      unfold settlement. rewrite Hs. repeat split.
    + eexists. split; [reflexivity|].
      cbn [final outcome consolidated calls errorPromises signal].
      unfold settlement. rewrite Hs. repeat split.
  - eexists. split; [reflexivity|].
    cbn [final outcome consolidated calls errorPromises signal].
    repeat split.
Qed.

Lemma observed_response network timeoutMonitor k r :
  observed network timeoutMonitor k = Responded r ->
  aborted (signalOf timeoutMonitor (S k)) = false.
Proof.
  unfold observed. destruct (aborted _); [discriminate | reflexivity].
Qed.

(** C2. When the calls an upload makes end with an HTTP error
    response, the recorded errors (one per failed call, in attempt
    order) are awaited; when exactly one error was recorded the upload
    rejects with that error itself, and when more than one was recorded
    it rejects with an AggregateError whose errors are the recorded
    ones in attempt order and whose message states their number. *)
Theorem http_failure_consolidated :
  forall k network url options pre r,
    expectedCalls network options = pre ++ [Responded r] ->
    400 <= status r ->
    exists run,
      uploadStream (3 + k) network url options = Some run
      /\ calls (final run) = pre ++ [Responded r]
      /\ errorPromises (final run)
         = map Fulfilled (history url pre ++ [recordedError url r])
      /\ consolidated run = true
      /\ (forall e, history url pre ++ [recordedError url r] = [e] ->
                    outcome run = Rejected (Single e))
      /\ ((1 < List.length (history url pre ++ [recordedError url r]))%nat ->
          outcome run
          = Rejected
              (AggregateError (history url pre ++ [recordedError url r])
                 (numberToString
                    (Z.of_nat
                       (List.length
                          (history url pre ++ [recordedError url r])))
                    ++ " errors encountered during upload")%string)).
Proof.
  intros k network url options pre r Hcalls Hstatus.
  destruct (upload_determined k network url options)
    as (run & Hrun & Hc & Hp & _ & Hs).
  exists run. split; [exact Hrun|].
  rewrite Hcalls in Hc, Hp, Hs.
  rewrite last_last, history_last_error in Hs by assumption.
  rewrite history_last_error in Hp by assumption.
  unfold settlement in Hs. apply Z.leb_le in Hstatus. rewrite Hstatus in Hs.
  injection Hs as Hout Hcons.
  repeat split; auto.
  - intros e He. rewrite Hout, He. reflexivity.
  - intros Hmany. rewrite Hout. f_equal. now apply consolidate_many.
Qed.

Lemma http_failure_consolidated_witness :
  (exists run,
     uploadStream 3 (fun _ => Responded notFound) uploadUrl None = Some run
     /\ outcome run = Rejected (Single (recordedError uploadUrl notFound)))
  /\ (exists run,
        uploadStream 3 (fun _ => Responded serviceUnavailable) uploadUrl None
        = Some run
        /\ outcome run
           = Rejected
               (AggregateError
                  [recordedError uploadUrl serviceUnavailable;
                   recordedError uploadUrl serviceUnavailable;
                   recordedError uploadUrl serviceUnavailable]
                  "3 errors encountered during upload")).
Proof.
  split.
  - destruct (http_failure_consolidated 0 (fun _ => Responded notFound)
                uploadUrl None [] notFound eq_refl ltac:(simpl; lia))
      as (run & Hrun & _ & _ & _ & Hone & _).
    exists run. split; [exact Hrun|]. apply Hone. reflexivity.
  - destruct (http_failure_consolidated 0
                (fun _ => Responded serviceUnavailable) uploadUrl None
                [Responded serviceUnavailable; Responded serviceUnavailable]
                serviceUnavailable eq_refl ltac:(simpl; lia))
      as (run & Hrun & _ & _ & _ & _ & Hmany).
    exists run. split; [exact Hrun|].
    apply Hmany. simpl. lia.
Defined.

(** C4. The upload resolves exactly when the last call it makes
    receives a response with a status below 400, which implies that the
    controller was not aborted during the run.  When it resolves, the
    error promises recorded for the earlier failed calls are not
    awaited, and the caller receives no error. *)
Theorem resolves_iff :
  forall k network url options,
  exists run,
    uploadStream (3 + k) network url options = Some run
    /\ calls (final run) = expectedCalls network options
    /\ (outcome run = Resolved
        <-> (exists pre r,
               expectedCalls network options = pre ++ [Responded r]
               /\ status r < 400)
            /\ aborted (signalOf (timeoutMonitorOf options)
                          (List.length (expectedCalls network options)))
               = false)
    /\ (outcome run = Resolved ->
        consolidated run = false
        /\ forall pre r,
             expectedCalls network options = pre ++ [Responded r] ->
             errorPromises (final run) = map Fulfilled (history url pre)).
Proof.
  intros k network url options.
  destruct (upload_determined k network url options)
    as (run & Hrun & Hc & Hp & _ & Hs).
  exists run. split; [exact Hrun|]. split; [exact Hc|].
  assert (Hlast : exists pre x,
             expectedCalls network options = pre ++ [x]
             /\ x = observed network (timeoutMonitorOf options)
                             (List.length pre)).
  { unfold expectedCalls.
    destruct (granted 0 _); [destruct (granted 1 _)|].
    - exists [observed network (timeoutMonitorOf options) 0;
              observed network (timeoutMonitorOf options) 1].
      eexists. split; reflexivity.
    - exists [observed network (timeoutMonitorOf options) 0].
      eexists. split; reflexivity.
    - exists []. eexists. split; reflexivity. }
  destruct Hlast as (pre & x & Hcalls & Hx).
  rewrite Hcalls, last_last in Hs. unfold settlement in Hs.
  assert (Hres : outcome run = Resolved ->
                 exists r, x = Responded r /\ status r < 400
                           /\ consolidated run = false).
  { intros Hres. destruct x as [r|e].
    - destruct (Z.leb_spec 400 (status r));
        injection Hs as Hout Hcons; [congruence | eauto].
    - injection Hs as Hout _. congruence. }
  split; [split|].
  - intros H. destruct (Hres H) as (r & -> & Hlt & _). split.
    + exists pre, r. auto.
    + rewrite Hcalls, length_app. simpl.
      rewrite Nat.add_1_r. eapply observed_response. symmetry. exact Hx.
  - intros [(pre' & r & Hcalls' & Hlt) _].
    rewrite Hcalls in Hcalls'. apply app_inj_tail in Hcalls' as [_ ->].
    apply Z.leb_gt in Hlt. rewrite Hlt in Hs. now injection Hs.
  - intros H. destruct (Hres H) as (r & -> & Hlt & Hcons).
    split; [exact Hcons|].
    intros pre' r' Hcalls'. rewrite Hp, Hcalls'.
    rewrite Hcalls in Hcalls'. apply app_inj_tail in Hcalls' as [_ [= <-]].
    rewrite history_app. unfold history at 2. simpl.
    apply Z.leb_gt in Hlt. rewrite Hlt. now rewrite app_nil_r.
Qed.

Lemma resolves_iff_witness :
  exists run,
    uploadStream 3 (scripted [Responded serviceUnavailable] (Responded ok))
                 uploadUrl None
    = Some run
    /\ outcome run = Resolved
    /\ consolidated run = false
    /\ errorPromises (final run)
       = [Fulfilled (recordedError uploadUrl serviceUnavailable)].
Proof.
  destruct (resolves_iff 0
              (scripted [Responded serviceUnavailable] (Responded ok))
              uploadUrl None) as (run & Hrun & _ & Hiff & Hdiscard).
  exists run. split; [exact Hrun|].
  assert (Hres : outcome run = Resolved).
  { apply Hiff. split; [|reflexivity].
    exists [Responded serviceUnavailable], ok.
    split; [reflexivity | simpl; lia]. }
  destruct (Hdiscard Hres) as [Hcons Hrec].
  split; [exact Hres|]. split; [exact Hcons|].
  apply (Hrec [Responded serviceUnavailable] ok). reflexivity.
Defined.

Lemma signalAfter_flowing m n :
  (forall i, (i < n)%nat -> during m i = Flowing) ->
  signalAfter m n = freshSignal.
Proof.
  induction n as [|n IH]; intros H; [reflexivity|].
  cbn [signalAfter]. rewrite IH by (intros i Hi; apply H; lia).
  cbn [aborted freshSignal]. now rewrite H by lia.
Qed.

Lemma signalAfter_stalled m j abortReason n :
  (forall i, (i < j)%nat -> during m i = Flowing) ->
  during m j = Stalled abortReason ->
  (j < n)%nat ->
  signalAfter m n = mkSignal true abortReason.
Proof.
  intros Hbefore Hstall. induction n as [|n IH]; intros Hn; [lia|].
  cbn [signalAfter].
  destruct (Nat.eq_dec j n) as [<-|Hne].
  - rewrite (signalAfter_flowing m j Hbefore). cbn [aborted freshSignal].
    now rewrite Hstall.
  - now rewrite IH by lia.
Qed.

(** C3 (as the code has it).  When the activity monitor aborts the
    controller with a recorded reason R in the middle of an attempt
    (its first stall, during call j, the calls before having failed in
    a retryable way), the upload rejects with exactly R and the
    recorded errors are not consolidated.  Retries are not bypassed:
    the policy treats the aborted call as a network error, so every
    retry that remains is made after its delay and fails with the
    abort error on the aborted signal; three calls are made in all. *)
Theorem abort_reason_supersedes :
  forall k network url options m j R,
    timeoutMonitorOf options = Some m ->
    (j <= 2)%nat ->
    during m j = Stalled (Some R) ->
    (forall i, (i < j)%nat ->
               during m i = Flowing /\ retryableFailure (network i)) ->
    exists run,
      uploadStream (3 + k) network url options = Some run
      /\ outcome run = Rejected (Single R)
      /\ consolidated run = false
      /\ calls (final run)
         = map network (seq 0 j) ++ repeat (Threw abortError) (3 - j)
      /\ waits (final run)
         = [retryDelayOf options 0; retryDelayOf options 1].
Proof.
  intros k network url options m j R Hmon Hj Hstall Hbefore.
  assert (Hflow : forall i, (i < j)%nat -> during m i = Flowing)
    by (intros i Hi; apply Hbefore, Hi).
  assert (Hlt : forall i, (i < j)%nat ->
                  observed network (Some m) i = network i).
  { intros i Hi. unfold observed, signalOf.
    rewrite signalAfter_flowing; [reflexivity|].
    intros i' Hi'. apply Hflow. lia. }
  assert (Hge : forall i, (j <= i)%nat ->
                  observed network (Some m) i = Threw abortError).
  { intros i Hi. unfold observed, signalOf.
    now rewrite (signalAfter_stalled m j (Some R)) by (assumption || lia). }
  assert (Hgranted : forall i, (i < j)%nat -> granted i (network i) = true).
  { intros i Hi. apply granted_retryableFailure.
    split; [lia | apply Hbefore, Hi]. }
  assert (Hcalls : expectedCalls network options
                   = map network (seq 0 j)
                       ++ repeat (Threw abortError) (3 - j)).
  { unfold expectedCalls. rewrite Hmon.
    destruct j as [|[|[|j]]]; [| | |lia]; cbn [seq map repeat Nat.sub app].
    - now rewrite !Hge by lia.
    - rewrite (Hlt 0%nat), Hgranted, !Hge by lia. reflexivity.
    - rewrite (Hlt 0%nat), (Hlt 1%nat), !Hgranted, !Hge by lia.
      reflexivity. }
  assert (Hlen : List.length (expectedCalls network options) = 3%nat).
  { rewrite Hcalls, length_app, length_map, length_seq, repeat_length. lia. }
  assert (Hlast : forall d, last (expectedCalls network options) d
                            = Threw abortError).
  { intros d. rewrite Hcalls.
    destruct j as [|[|[|j]]]; [| | |lia]; reflexivity. }
  unfold uploadStream. rewrite retryableFetch_determined, Hlast, Hlen.
  eexists. split; [reflexivity|].
  cbn [outcome consolidated final calls waits].
  unfold reasonOr. rewrite Hmon. cbn [signal signalOf].
  rewrite (signalAfter_stalled m j (Some R)) by (assumption || lia).
  repeat split. exact Hcalls.
Qed.

Lemma abort_reason_supersedes_witness :
  exists run,
    uploadStream 3 (fun _ => Responded ok) uploadUrl
                 (Some (mkOptions (Some geometricRetry) (Some stallsAtOnce)))
    = Some run
    /\ outcome run = Rejected (Single streamStalled)
    /\ calls (final run)
       = [Threw abortError; Threw abortError; Threw abortError]
    /\ waits (final run) = [500; 1000].
Proof.
  destruct (abort_reason_supersedes 0 (fun _ => Responded ok) uploadUrl
              (Some (mkOptions (Some geometricRetry) (Some stallsAtOnce)))
              stallsAtOnce 0 streamStalled eq_refl ltac:(lia) eq_refl
              ltac:(intros i Hi; lia))
    as (run & Hrun & Hout & _ & Hcalls & Hwaits).
  exists run. split; [exact Hrun|]. split; [exact Hout|].
  split; [exact Hcalls | exact Hwaits].
Defined.
